(** * FIFA player statistics dashboard: a shallow embedding of
      [fifa_dashboard.py] and the properties of its queries.

    The dashboard is a Streamlit script: it builds SQL text with f-strings,
    hands it to SQLite through [load_data] and renders the rows.  The
    embedding has four layers:

    - the [players] table as a list of records;
    - the part of SQLite the script relies on: the tokens and WHERE
      conditions that the interpolated text goes through, ORDER BY ... DESC,
      LIMIT/OFFSET, GROUP BY with COUNT/AVG/ROUND, and LIKE;
    - every query of the script the properties speak about, written with
      those operations, the interpolated parts kept as text;
    - the control flow of the page (try/except blocks, [if search_term:])
      as a small error monad over the log of rendered elements. *)

From Stdlib Require Import ZArith QArith Qround Lqa List String Ascii Bool Lia.
From Stdlib Require Import Permutation Sorted DecimalString OrdersEx.
Import ListNotations.

Local Open Scope string_scope.
Local Open Scope list_scope.
Local Open Scope Z_scope.

(** ** The players table *)

(** One row of [players].  Only the columns read by the queries below are
    kept; the three rating columns are integers, the text columns are
    strings, and [Club] may be NULL (the club talent query tests
    [Club IS NOT NULL]). *)
Record player : Type := mkPlayer {
  ID : Z;
  Name : string;
  Age : Z;
  Nationality : string;
  Overall : Z;
  Potential : Z;
  Club : option string;
  Position : string
}.

Definition table := list player.

(** What [load_data] gives back: a data frame, or the exception raised by
    [pd.read_sql_query] when SQLite rejects the statement. *)
Inductive result (A : Type) : Type :=
| Ok (a : A)
| Raised.
Arguments Ok {A} a.
Arguments Raised {A}.

(** ** SQLite: tokens *)

Module Sql.

Inductive token : Type :=
| TWord (w : string)      (* keyword or identifier, folded to upper case *)
| TInt (n : Z)
| TStr (s : string)       (* the contents of a '...' literal *)
| TEq                     (* =  *)
| TNe                     (* != *)
| TBad.                   (* unterminated literal or a character outside the fragment *)

Inductive lstate : Type :=
| LStart
| LWord (acc : string)
| LNum (acc : Z)
| LStr (acc : string)     (* inside '...' *)
| LStrQ (acc : string)    (* inside '...', just after a quote: end of literal or first half of '' *)
| LBang.                  (* after ! *)

Definition is_space (c : ascii) : bool :=
  let n := nat_of_ascii c in
  (Nat.eqb n 32 || Nat.eqb n 9 || Nat.eqb n 10 || Nat.eqb n 13)%bool.

Definition is_digit (c : ascii) : bool :=
  let n := nat_of_ascii c in (Nat.leb 48 n && Nat.leb n 57)%bool.

Definition is_upper (c : ascii) : bool :=
  let n := nat_of_ascii c in (Nat.leb 65 n && Nat.leb n 90)%bool.

Definition is_lower (c : ascii) : bool :=
  let n := nat_of_ascii c in (Nat.leb 97 n && Nat.leb n 122)%bool.

Definition is_alpha (c : ascii) : bool :=
  (is_upper c || is_lower c || Ascii.eqb c "_")%bool.

Definition is_quote (c : ascii) : bool := Ascii.eqb c "'".

(** ASCII case folding, the one SQLite applies to keywords, identifiers and
    the operands of LIKE. *)
Definition upper (c : ascii) : ascii :=
  if is_lower c then ascii_of_nat (nat_of_ascii c - 32) else c.

Definition digit_val (c : ascii) : Z := Z.of_nat (nat_of_ascii c - 48).

Definition snoc (s : string) (c : ascii) : string := s ++ String c "".

(** One character read in the start state. *)
Definition start_step (c : ascii) : list token * option lstate :=
  if is_space c then ([], Some LStart)
  else if is_digit c then ([], Some (LNum (digit_val c)))
  else if is_alpha c then ([], Some (LWord (String (upper c) "")))
  else if is_quote c then ([], Some (LStr ""))
  else if Ascii.eqb c "=" then ([TEq], Some LStart)
  else if Ascii.eqb c "!" then ([], Some LBang)
  else ([TBad], None).

Definition emit_then_start (t : token) (c : ascii) : list token * option lstate :=
  let (out, nx) := start_step c in (t :: out, nx).

Definition lex_step (st : lstate) (c : ascii) : list token * option lstate :=
  match st with
  | LStart => start_step c
  | LWord w =>
      if (is_alpha c || is_digit c)%bool then ([], Some (LWord (snoc w (upper c))))
      else emit_then_start (TWord w) c
  | LNum n =>
      if is_digit c then ([], Some (LNum (10 * n + digit_val c)))
      else if is_alpha c then ([TBad], None)
      else emit_then_start (TInt n) c
  | LStr s =>
      if is_quote c then ([], Some (LStrQ s)) else ([], Some (LStr (snoc s c)))
  | LStrQ s =>
      if is_quote c then ([], Some (LStr (snoc s c)))
      else emit_then_start (TStr s) c
  | LBang =>
      if Ascii.eqb c "=" then ([TNe], Some LStart) else ([TBad], None)
  end.

Definition lex_end (st : lstate) : list token :=
  match st with
  | LStart => []
  | LWord w => [TWord w]
  | LNum n => [TInt n]
  | LStr _ => [TBad]
  | LStrQ s => [TStr s]
  | LBang => [TBad]
  end.

Fixpoint lex (st : lstate) (s : string) : list token :=
  match s with
  | EmptyString => lex_end st
  | String c s' =>
      match lex_step st c with
      | (out, Some st') => out ++ lex st' s'
      | (out, None) => out
      end
  end.

Definition tokens (s : string) : list token := lex LStart s.

(** ** SQLite: WHERE conditions *)

Inductive intcol : Type := COverall | CAge | CPotential.
Inductive textcol : Type := CName | CClub | CNationality | CPosition.

Inductive atom : Type :=
| ABetween (c : intcol) (lo hi : Z)       (* c BETWEEN lo AND hi *)
| AEq (c : textcol) (v : string)          (* c = 'v'  *)
| ANe (c : textcol) (v : string)          (* c != 'v' *)
| ALike (c : textcol) (pat : string).     (* c LIKE 'pat' *)

(** A condition is a disjunction (OR) of conjunctions (AND) of atoms; AND
    binds tighter than OR. *)
Definition cond := list (list atom).

Definition intcol_of (w : string) : option intcol :=
  if String.eqb w "OVERALL" then Some COverall
  else if String.eqb w "AGE" then Some CAge
  else if String.eqb w "POTENTIAL" then Some CPotential
  else None.

Definition textcol_of (w : string) : option textcol :=
  if String.eqb w "NAME" then Some CName
  else if String.eqb w "CLUB" then Some CClub
  else if String.eqb w "NATIONALITY" then Some CNationality
  else if String.eqb w "POSITION" then Some CPosition
  else None.

Definition is_kw (k : string) (t : token) : bool :=
  match t with TWord w => String.eqb w k | _ => false end.

Definition parse_atom (ts : list token) : option (atom * list token) :=
  match ts with
  | TWord c :: TEq :: TStr v :: rest =>
      option_map (fun col => (AEq col v, rest)) (textcol_of c)
  | TWord c :: TNe :: TStr v :: rest =>
      option_map (fun col => (ANe col v, rest)) (textcol_of c)
  | TWord c :: TWord k :: TStr v :: rest =>
      if String.eqb k "LIKE"
      then option_map (fun col => (ALike col v, rest)) (textcol_of c)
      else None
  | TWord c :: TWord k :: TInt lo :: TWord a :: TInt hi :: rest =>
      if (String.eqb k "BETWEEN" && String.eqb a "AND")%bool
      then option_map (fun col => (ABetween col lo hi, rest)) (intcol_of c)
      else None
  | _ => None
  end.

Fixpoint parse_cond (fuel : nat) (ts : list token) : option cond :=
  match fuel with
  | O => None
  | S fuel' =>
      match parse_atom ts with
      | None => None
      | Some (a, []) => Some [[a]]
      | Some (a, t :: rest) =>
          if is_kw "AND" t then
            match parse_cond fuel' rest with
            | Some (c :: d) => Some ((a :: c) :: d)
            | _ => None
            end
          else if is_kw "OR" t then
            match parse_cond fuel' rest with
            | Some d => Some ([a] :: d)
            | None => None
            end
          else None
      end
  end.

(** The text of a WHERE clause, from the keyword to the end of the
    condition.  [None] is text that is not a condition of this fragment
    (for the clauses the script can build from quote-free values this never
    happens; an unterminated literal or two operands in a row, which SQLite
    rejects as well, land here). *)
Definition parse_where (s : string) : option cond :=
  match tokens s with
  | t :: ts => if is_kw "WHERE" t then parse_cond (List.length ts) ts else None
  | [] => None
  end.

(** ** SQLite: LIKE *)

(** [like pat s]: SQLite's default LIKE. [%] matches any run of characters,
    [_] any one character, every other character matches itself up to
    ASCII case. *)
Fixpoint like (pat : string) (s : string) : bool :=
  match pat with
  | EmptyString => match s with EmptyString => true | _ => false end
  | String c pat' =>
      if Ascii.eqb c "%" then
        (fix star (s : string) : bool :=
           (like pat' s ||
            match s with EmptyString => false | String _ s' => star s' end)%bool) s
      else
        match s with
        | EmptyString => false
        | String d s' =>
            ((Ascii.eqb c "_" || Ascii.eqb (upper c) (upper d)) && like pat' s')%bool
        end
  end.

(** ** SQLite: evaluation of a condition on a row *)

Definition int_of (c : intcol) (p : player) : Z :=
  match c with
  | COverall => Overall p
  | CAge => Age p
  | CPotential => Potential p
  end.

(** [None] is NULL. *)
Definition text_of (c : textcol) (p : player) : option string :=
  match c with
  | CName => Some (Name p)
  | CClub => Club p
  | CNationality => Some (Nationality p)
  | CPosition => Some (Position p)
  end.

(** A comparison with NULL is NULL, and WHERE keeps a row only when the
    condition is true, so an atom on a NULL column never holds. *)
Definition on_text (c : textcol) (p : player) (f : string -> bool) : bool :=
  match text_of c p with
  | Some s => f s
  | None => false
  end.

Definition eval_atom (p : player) (a : atom) : bool :=
  match a with
  | ABetween c lo hi => ((lo <=? int_of c p) && (int_of c p <=? hi))%bool
  | AEq c v => on_text c p (fun s => String.eqb s v)
  | ANe c v => on_text c p (fun s => negb (String.eqb s v))
  | ALike c pat => on_text c p (like pat)
  end.

Definition eval_cond (c : cond) (p : player) : bool :=
  existsb (forallb (eval_atom p)) c.

(** [SELECT ... FROM players <where-text>]: the rows kept, or the error. *)
Definition select_where (where_text : string) (db : table) : result (list player) :=
  match parse_where where_text with
  | Some c => Ok (filter (eval_cond c) db)
  | None => Raised
  end.

End Sql.

(** ** SQLite: ORDER BY, LIMIT, GROUP BY and the aggregates *)

Section OrderBy.
Context {A K : Type}.
Variable ltb : K -> K -> bool.
Variable key : A -> K.

(** ORDER BY key DESC, as a stable insertion sort: rows with equal keys
    stay in scan order (SQL leaves their order open; nothing proved below
    depends on it). *)
Fixpoint insert_desc (x : A) (l : list A) : list A :=
  match l with
  | [] => [x]
  | y :: l' => if ltb (key x) (key y) then y :: insert_desc x l' else x :: l
  end.

Fixpoint order_by_desc (l : list A) : list A :=
  match l with
  | [] => []
  | x :: l' => insert_desc x (order_by_desc l')
  end.
End OrderBy.

Definition Qltb (x y : Q) : bool := negb (Qle_bool y x).

(** LIMIT n OFFSET k *)
Definition limit {A : Type} (n k : nat) (l : list A) : list A := firstn n (skipn k l).

Definition opt_eqb (a b : option string) : bool :=
  match a, b with
  | Some x, Some y => String.eqb x y
  | None, None => true
  | _, _ => false
  end.

(** The values of a grouping column, each once, in scan order. *)
Fixpoint distinct (l : list string) : list string :=
  match l with
  | [] => []
  | k :: l' => k :: filter (fun k' => negb (String.eqb k' k)) (distinct l')
  end.

(** GROUP BY Club on rows whose club is not NULL: every club with its rows. *)
Definition club_is (c : string) (p : player) : bool := opt_eqb (Club p) (Some c).

Definition clubs_of (rows : list player) : list string :=
  distinct (flat_map (fun p => match Club p with Some c => [c] | None => [] end) rows).

Definition group_by_club (rows : list player) : list (string * list player) :=
  map (fun c => (c, filter (club_is c) rows)) (clubs_of rows).

Definition count {A : Type} (l : list A) : Z := Z.of_nat (List.length l).

Definition sum (l : list Z) : Z := fold_right Z.add 0 l.

(** AVG over a non-empty group (exact; SQLite computes it in doubles). *)
Definition avg (l : list Z) : Q := (inject_Z (sum l) / inject_Z (count l))%Q.

Definition maximum (l : list Z) : Z :=
  match l with
  | [] => 0
  | x :: l' => fold_left Z.max l' x
  end.

Definition pow10 (d : nat) : Q := inject_Z (10 ^ Z.of_nat d).

(** ROUND(x, d) of SQLite: to d decimals, halves away from zero. *)
Definition round_half_away (q : Q) : Z :=
  if Qle_bool 0 q then Qfloor (q + (1 # 2))%Q else Qceiling (q - (1 # 2))%Q.

Definition sql_round (q : Q) (d : nat) : Q :=
  (inject_Z (round_half_away (q * pow10 d)) / pow10 d)%Q.

(** [Series.round(d)] of pandas: to d decimals, halves to the even neighbour. *)
Definition rint (q : Q) : Z :=
  let f := Qfloor q in
  match ((q - inject_Z f) ?= (1 # 2))%Q with
  | Lt => f
  | Gt => f + 1
  | Eq => if Z.even f then f else f + 1
  end.

Definition pd_round (q : Q) (d : nat) : Q :=
  (inject_Z (rint (q * pow10 d)) / pow10 d)%Q.

(** ** The script: sidebar and [filter_clause] (lines 48-73) *)

(** The values of the two select boxes and the two range sliders. *)
Record selection : Type := mkSelection {
  selected_position : string;
  selected_club : string;
  min_rating : Z;
  max_rating : Z;
  min_age : Z;
  max_age : Z
}.

(** [f"{n}"] for a Python int. *)
Definition show_int (z : Z) : string := NilZero.string_of_int (Z.to_int z).

Definition filter_clause (f : selection) : string :=
  let clause :=
    ("WHERE Overall BETWEEN " ++ show_int (min_rating f) ++ " AND " ++ show_int (max_rating f)
      ++ " AND Age BETWEEN " ++ show_int (min_age f) ++ " AND " ++ show_int (max_age f))%string in
  let clause :=
    if negb (String.eqb (selected_position f) "All")
    then (clause ++ " AND Position = '" ++ selected_position f ++ "'")%string
    else clause in
  if negb (String.eqb (selected_club f) "All")
  then (clause ++ " AND Club = '" ++ selected_club f ++ "'")%string
  else clause.

(** ** KPI row: Total Players (lines 80-82) *)

(** [SELECT COUNT( * ) as count FROM players {filter_clause}] *)
Definition total_count (f : selection) (db : table) : result Z :=
  match Sql.select_where (filter_clause f) db with
  | Ok rows => Ok (count rows)
  | Raised => Raised
  end.

(** ** Overview tab: Top 15 Clubs (lines 167-173) *)

Record club_count : Type := mkClubCount {
  cc_Club : string;
  cc_count : Z;
  cc_avg_rating : Q
}.

Definition club_count_of (g : string * list player) : club_count :=
  {| cc_Club := fst g;
     cc_count := count (snd g);
     cc_avg_rating := sql_round (avg (map Overall (snd g))) 1 |}.

Definition top_clubs (f : selection) (db : table) : result (list club_count) :=
  match Sql.select_where (filter_clause f ++ " AND Club != 'Hoffenheim' AND Club != ''")%string db with
  | Ok rows =>
      Ok (limit 15 0 (order_by_desc Z.ltb cc_count (map club_count_of (group_by_club rows))))
  | Raised => Raised
  end.

(** ** Best XI tab (lines 205-215) *)

Record xi_row : Type := mkXi {
  xi_Name : string;
  xi_Overall : Z;
  xi_Club : option string;
  xi_Age : Z
}.

Definition xi_of (p : player) : xi_row :=
  {| xi_Name := Name p; xi_Overall := Overall p; xi_Club := Club p; xi_Age := Age p |}.

(** [Position IN (...)] ([Position = 'GK'] is the one-element case). *)
Definition position_in (ps : list string) (p : player) : bool :=
  existsb (String.eqb (Position p)) ps.

(** The candidates of a slot in the order the slot query scans them:
    [WHERE Position IN (...) ORDER BY Overall DESC]. *)
Definition candidates (ps : list string) (db : table) : list player :=
  order_by_desc Z.ltb Overall (filter (position_in ps) db).

(** [SELECT Name, Overall, Club, Age FROM players WHERE Position IN (...)
     ORDER BY Overall DESC LIMIT 1 OFFSET k] *)
Definition slot (ps : list string) (k : nat) (db : table) : list xi_row :=
  map xi_of (limit 1 k (candidates ps db)).

Definition gk := slot ["GK"] 0.
Definition lb := slot ["LB"; "LWB"] 0.
Definition cb1 := slot ["CB"] 0.
Definition cb2 := slot ["CB"] 1.
Definition rb := slot ["RB"; "RWB"] 0.
Definition cm1 := slot ["CM"; "CDM"] 0.
Definition cm2 := slot ["CM"; "CAM"] 0.
Definition cm3 := slot ["CM"; "CDM"; "CAM"] 1.
Definition lw := slot ["LW"; "LM"] 0.
Definition striker := slot ["ST"; "CF"] 0.
Definition rw := slot ["RW"; "RM"] 0.

(** ** Club Analysis tab: club talent (lines 289-315) *)

Record club_row : Type := mkClubRow {
  ct_Club : string;
  TotalPlayers : Z;
  AvgRating : Q;
  BestPlayer : Z;
  AvgPotential : Q;
  YoungTalents : Z;
  WorldClass : Z;
  YouthPotential : Q
}.

(** [Club != c]; NULL never passes. *)
Definition club_ne (c : string) (p : player) : bool :=
  match Club p with
  | Some s => negb (String.eqb s c)
  | None => false
  end.

Definition club_not_null (p : player) : bool :=
  match Club p with Some _ => true | None => false end.

Definition club_row_of (g : string * list player) : club_row :=
  let rows := snd g in
  {| ct_Club := fst g;
     TotalPlayers := count rows;
     AvgRating := sql_round (avg (map Overall rows)) 2;
     BestPlayer := maximum (map Overall rows);
     AvgPotential := sql_round (avg (map Potential rows)) 2;
     YoungTalents := count (filter (fun p => Age p <=? 23) rows);
     WorldClass := count (filter (fun p => 80 <=? Overall p) rows);
     YouthPotential :=
       sql_round (avg (map (fun p => if Age p <=? 23 then Potential p else 0) rows)) 2 |}.

(** WHERE, GROUP BY and HAVING of the statement: the clubs that qualify. *)
Definition qualifying_clubs (db : table) : list club_row :=
  filter (fun r => 15 <=? TotalPlayers r)
    (map club_row_of
       (group_by_club
          (filter (fun p => club_ne "" p && club_not_null p && club_ne "Hoffenheim" p)%bool
             db))).

(** The whole statement: ... ORDER BY AvgRating DESC LIMIT 30. *)
Definition club_talent_query (db : table) : list club_row :=
  limit 30 0 (order_by_desc Qltb AvgRating (qualifying_clubs db)).

(** The weighted sum of lines 310-313. *)
Definition talent_score (avg_rating avg_potential : Q) (young world : Z) : Q :=
  (avg_rating * (4 # 10) + avg_potential * (3 # 10)
   + inject_Z (young * 2) + inject_Z world * (15 # 10))%Q.

(** The TalentIndex column: the weighted sum, [.round(2)]. *)
Definition talent_index (avg_rating avg_potential : Q) (young world : Z) : Q :=
  pd_round (talent_score avg_rating avg_potential young world) 2.

(** pandas evaluates the same expression in IEEE doubles.  The expression
    over any arithmetic: an order, addition, multiplication by a constant,
    the conversion of an int64 column and rounding to a number of
    decimals. *)
Record arithmetic : Type := mkArithmetic {
  num : Type;
  num_le : num -> num -> Prop;
  num_add : num -> num -> num;
  num_times : num -> Q -> num;
  num_of_int : Z -> num;
  num_round : num -> nat -> num
}.

Definition talent_index_in (R : arithmetic)
  (avg_rating avg_potential : num R) (young world : Z) : num R :=
  num_round R
    (num_add R
       (num_add R
          (num_add R (num_times R avg_rating (4 # 10)) (num_times R avg_potential (3 # 10)))
          (num_of_int R (young * 2)))
       (num_times R (num_of_int R world) (15 # 10)))
    2.

(** The exact arithmetic used in this file. *)
Definition exact : arithmetic :=
  {| num := Q; num_le := Qle; num_add := Qplus; num_times := Qmult;
     num_of_int := inject_Z; num_round := pd_round |}.

(** What monotonicity of the index needs of an arithmetic; rounding to
    nearest makes each operation of IEEE doubles monotone on finite
    values. *)
Definition monotone_arithmetic (R : arithmetic) : Prop :=
  (forall a, num_le R a a) /\
  (forall a b c, num_le R a b -> num_le R b c -> num_le R a c) /\
  (forall a a' b b', num_le R a a' -> num_le R b b' ->
                     num_le R (num_add R a b) (num_add R a' b')) /\
  (forall c a a', (0 <= c)%Q -> num_le R a a' ->
                  num_le R (num_times R a c) (num_times R a' c)) /\
  (forall y y', y <= y' -> num_le R (num_of_int R y) (num_of_int R y')) /\
  (forall a a' d, num_le R a a' -> num_le R (num_round R a d) (num_round R a' d)).

Record ranked_club : Type := mkRanked {
  club : club_row;
  TalentIndex : Q
}.

Definition with_talent_index (r : club_row) : ranked_club :=
  {| club := r;
     TalentIndex :=
       talent_index (AvgRating r) (AvgPotential r) (YoungTalents r) (WorldClass r) |}.

(** [club_talent] after line 315: the column added and the frame sorted by
    it, descending (an empty frame is left as it is). *)
Definition club_talent (db : table) : list ranked_club :=
  match club_talent_query db with
  | [] => []
  | rows => order_by_desc Qltb TalentIndex (map with_talent_index rows)
  end.

(** ** Club Analysis tab: youth academies (lines 349-362) *)

Record youth_row : Type := mkYouth {
  y_Club : string;
  YoungPlayers : Z;
  y_AvgRating : Q;
  y_AvgPotential : Q;
  BestPotential : Z
}.

Definition youth_row_of (g : string * list player) : youth_row :=
  let rows := snd g in
  {| y_Club := fst g;
     YoungPlayers := count rows;
     y_AvgRating := sql_round (avg (map Overall rows)) 1;
     y_AvgPotential := sql_round (avg (map Potential rows)) 1;
     BestPotential := maximum (map Potential rows) |}.

Definition youth_clubs (db : table) : list youth_row :=
  limit 15 0
    (order_by_desc Qltb y_AvgPotential
       (filter (fun r => 5 <=? YoungPlayers r)
          (map youth_row_of
             (group_by_club
                (filter (fun p => (Age p <=? 23) && club_ne "" p && club_ne "Hoffenheim" p)%bool
                   db))))).

(** ** Club Analysis tab: hidden gems (lines 378-384) *)

Record gem : Type := mkGem {
  gem_Name : string;
  gem_Age : Z;
  gem_Club : option string;
  gem_Overall : Z;
  gem_Potential : Z;
  Growth : Z
}.

Definition gem_of (p : player) : gem :=
  {| gem_Name := Name p; gem_Age := Age p; gem_Club := Club p;
     gem_Overall := Overall p; gem_Potential := Potential p;
     Growth := Potential p - Overall p |}.

Definition gems (db : table) : list gem :=
  limit 20 0
    (order_by_desc Z.ltb Growth
       (map gem_of
          (filter (fun p => (15 <=? Potential p - Overall p) && (Age p <=? 24))%bool db))).

(** ** Player search (lines 497-511) *)

(** The radio button; its label is the column interpolated in the query. *)
Inductive search_type : Type := ByName | ByClub | ByNationality.

Definition search_column (t : search_type) : string :=
  match t with
  | ByName => "Name"
  | ByClub => "Club"
  | ByNationality => "Nationality"
  end.

Definition search_where (t : search_type) (search_term : string) : string :=
  ("WHERE " ++ search_column t ++ " LIKE '%" ++ search_term ++ "%'")%string.

(** [results]: the statement of lines 504-511 (issued only under
    [if search_term:], see the page below). *)
Definition results (t : search_type) (search_term : string) (db : table)
  : result (list player) :=
  match Sql.select_where (search_where t search_term) db with
  | Ok rows => Ok (limit 100 0 (order_by_desc Z.ltb Overall rows))
  | Raised => Raised
  end.

(** The value of the searched column ([None] is NULL). *)
Definition searched (t : search_type) (p : player) : option string :=
  match t with
  | ByName => Some (Name p)
  | ByClub => Club p
  | ByNationality => Some (Nationality p)
  end.

(** ** The page: what is issued and rendered, and where exceptions go *)

Module Page.

(** Every [load_data] call site of the script. *)
Inductive query : Type :=
| QPositions | QClubs
| QTotal | QAvgRating | QAvgAge | QTopPlayer | QClubCount
| QRatingDist | QNations | QAgeDist | QTopClubs
| QTop50
| QGk | QLb | QCb1 | QCb2 | QRb | QCm1 | QCm2 | QCm3 | QLw | QStriker | QRw
| QClubTalent | QYouth | QGems | QDepth
| QSkills | QPhysical | QPositionStats
| QSearch
| QPosPlayers.

(** What a call of [load_data] does: raise, or return a frame that is empty
    or not (all the script ever branches on). *)
Inductive outcome : Type := Fails | Empty | Rows.

Definition store := query -> outcome.

(** The elements that show data or a message (headings, separators and
    input widgets are not logged). *)
Inductive element : Type :=
| Metric (label : string)
| Chart (title : string)
| Dataframe (name : string)
| Card (slot : string)
| Text (text : string)
| ErrorBox (msg : string)
| WarningBox (msg : string)
| InfoBox (msg : string).

Inductive item : Type :=
| Issued (q : query)
| Rendered (e : element).

(** A writer monad with exceptions: the result, and what was logged until
    the result or the exception. *)
Definition M (A : Type) : Type := result A * list item.

Definition ret {A : Type} (a : A) : M A := (Ok a, []).

Definition bind {A B : Type} (m : M A) (k : A -> M B) : M B :=
  match m with
  | (Ok a, log) => let (r, log') := k a in (r, log ++ log')
  | (Raised, log) => (Raised, log)
  end.

Notation "x <- m ;; k" := (bind m (fun x => k))
  (at level 61, m at next level, right associativity).
Notation "m ;;; k" := (bind m (fun _ => k))
  (at level 61, right associativity).

Definition render (e : element) : M unit := (Ok tt, [Rendered e]).

(** [load_data(q)]; the value is [not frame.empty]. *)
Definition load_data (db : store) (q : query) : M bool :=
  match db q with
  | Fails => (Raised, [Issued q])
  | Empty => (Ok false, [Issued q])
  | Rows => (Ok true, [Issued q])
  end.

(** [try: body except Exception as e: handler] *)
Definition try_except (body handler : M unit) : M unit :=
  match body with
  | (Ok a, log) => (Ok a, log)
  | (Raised, log) => let (r, log') := handler in (r, log ++ log')
  end.

Definition when (b : bool) (m : M unit) : M unit := if b then m else ret tt.

(** Lines 45-46. *)
Definition sidebar (db : store) : M unit :=
  _ <- load_data db QPositions ;;
  _ <- load_data db QClubs ;;
  ret tt.

(** Lines 78-106: one try block around the five metrics. *)
Definition kpi_body (db : store) : M unit :=
  _ <- load_data db QTotal ;;
  render (Metric "Total Players") ;;;
  _ <- load_data db QAvgRating ;;
  render (Metric "Avg Rating") ;;;
  _ <- load_data db QAvgAge ;;
  render (Metric "Avg Age") ;;;
  _ <- load_data db QTopPlayer ;;
  render (Metric "Top Player") ;;;
  _ <- load_data db QClubCount ;;
  render (Metric "Clubs").

Definition kpi (db : store) : M unit :=
  try_except (kpi_body db) (render (ErrorBox "Error loading metrics")).

(** Lines 113-180: no try block. *)
Definition overview (db : store) : M unit :=
  _ <- load_data db QRatingDist ;;
  render (Chart "Player Rating Distribution") ;;;
  _ <- load_data db QNations ;;
  render (Chart "Players by Nationality") ;;;
  _ <- load_data db QAgeDist ;;
  render (Chart "Players by Age") ;;;
  _ <- load_data db QTopClubs ;;
  render (Chart "Players by Club").

(** Lines 182-197: no try block. *)
Definition top_players (db : store) : M unit :=
  _ <- load_data db QTop50 ;;
  render (Dataframe "top_players").

(** Lines 199-282: the eleven queries, the cards of the slots that are not
    empty and the three team metrics, in one try block. *)
Definition best_xi_body (db : store) : M unit :=
  gk <- load_data db QGk ;;
  lb <- load_data db QLb ;;
  cb1 <- load_data db QCb1 ;;
  cb2 <- load_data db QCb2 ;;
  rb <- load_data db QRb ;;
  cm1 <- load_data db QCm1 ;;
  cm2 <- load_data db QCm2 ;;
  cm3 <- load_data db QCm3 ;;
  lw <- load_data db QLw ;;
  striker <- load_data db QStriker ;;
  rw <- load_data db QRw ;;
  when lw (render (Card "LW")) ;;;
  when striker (render (Card "ST")) ;;;
  when rw (render (Card "RW")) ;;;
  when cm1 (render (Card "CM")) ;;;
  when cm2 (render (Card "CM")) ;;;
  when cm3 (render (Card "CM")) ;;;
  when lb (render (Card "LB")) ;;;
  when cb1 (render (Card "CB")) ;;;
  when cb2 (render (Card "CB")) ;;;
  when rb (render (Card "RB")) ;;;
  when gk (render (Card "GK")) ;;;
  render (Metric "Team Average Rating") ;;;
  render (Metric "Team Average Age") ;;;
  render (Metric "Clubs Represented").

Definition best_xi (db : store) : M unit :=
  try_except (best_xi_body db) (render (ErrorBox "Error loading Best XI")).

(** Lines 287-419: club talent, youth academies, hidden gems and squad
    depth, in one try block. *)
Definition club_analysis_body (db : store) : M unit :=
  club_talent <- load_data db QClubTalent ;;
  (if club_talent
   then render (Chart "Club Talent Index (Quality + Potential + Youth)") ;;;
        render (Dataframe "top_club")
   else render (WarningBox "No club data available with minimum 15 players.")) ;;;
  youth_clubs <- load_data db QYouth ;;
  (if youth_clubs
   then render (Chart "Youth Development: Current vs Potential")
   else render (InfoBox "No youth academy data available.")) ;;;
  gems <- load_data db QGems ;;
  (if gems
   then render (Dataframe "gems")
   else render (InfoBox "No hidden gems found with current criteria.")) ;;;
  when club_talent
    (depth_data <- load_data db QDepth ;;
     when depth_data (render (Chart "Position Coverage by Top Clubs"))).

Definition club_analysis (db : store) : M unit :=
  try_except (club_analysis_body db) (render (ErrorBox "Error in club analysis")).

(** Lines 422-489: no try block. *)
Definition skills (db : store) : M unit :=
  _ <- load_data db QSkills ;;
  render (Chart "Attack vs Defense Skills (Top 100)") ;;;
  _ <- load_data db QPhysical ;;
  render (Chart "Speed vs Power (Top 100)") ;;;
  _ <- load_data db QPositionStats ;;
  render (Chart "Position Analysis: Player Count & Average Rating") ;;;
  render (Dataframe "position_comparison").

(** [if search_term:] for a Python str. *)
Definition truthy (s : string) : bool :=
  match s with EmptyString => false | String _ _ => true end.

(** Lines 497-521: no try block. *)
Definition search (db : store) (search_term : string) : M unit :=
  when (truthy search_term)
    (results <- load_data db QSearch ;;
     if results
     then render (Text "Found results") ;;; render (Dataframe "results")
     else render (WarningBox "No players found matching your search criteria.")).

(** Lines 524-561: no try block. *)
Definition deep_dive (db : store) : M unit :=
  _ <- load_data db QPosPlayers ;;
  render (Dataframe "top_10") ;;;
  render (Chart "Average Stats").

(** The blocks of the script, in order. *)
Inductive block : Type :=
| Sidebar | Kpi | Overview | TopPlayers | BestXI | ClubAnalysis | Skills | SearchPanel | DeepDive.

Definition event : Type := block * item.

(** A block run as part of the page: its log entries carry the block. *)
Definition within (b : block) (m : M unit) : result unit * list event :=
  (fst m, map (pair b) (snd m)).

Definition run_block (db : store) (search_term : string) (b : block) : M unit :=
  match b with
  | Sidebar => sidebar db
  | Kpi => kpi db
  | Overview => overview db
  | TopPlayers => top_players db
  | BestXI => best_xi db
  | ClubAnalysis => club_analysis db
  | Skills => skills db
  | SearchPanel => search db search_term
  | DeepDive => deep_dive db
  end.

(** Blocks run one after the other; an exception that leaves a block ends
    the script run. *)
Fixpoint run (db : store) (search_term : string) (bs : list block)
  : result unit * list event :=
  match bs with
  | [] => (Ok tt, [])
  | b :: bs' =>
      match within b (run_block db search_term b) with
      | (Ok _, log) => let (r, log') := run db search_term bs' in (r, log ++ log')
      | (Raised, log) => (Raised, log)
      end
  end.

Definition script : list block :=
  [Sidebar; Kpi; Overview; TopPlayers; BestXI; ClubAnalysis; Skills; SearchPanel; DeepDive].

Definition page (db : store) (search_term : string) : result unit * list event :=
  run db search_term script.

(** The block a call site belongs to. *)
Definition block_of (q : query) : block :=
  match q with
  | QPositions | QClubs => Sidebar
  | QTotal | QAvgRating | QAvgAge | QTopPlayer | QClubCount => Kpi
  | QRatingDist | QNations | QAgeDist | QTopClubs => Overview
  | QTop50 => TopPlayers
  | QGk | QLb | QCb1 | QCb2 | QRb | QCm1 | QCm2 | QCm3 | QLw | QStriker | QRw => BestXI
  | QClubTalent | QYouth | QGems | QDepth => ClubAnalysis
  | QSkills | QPhysical | QPositionStats => Skills
  | QSearch => SearchPanel
  | QPosPlayers => DeepDive
  end.

(** The blocks whose body is a try block, and the message of its handler. *)
Definition handler_of (b : block) : option string :=
  match b with
  | Kpi => Some "Error loading metrics"
  | BestXI => Some "Error loading Best XI"
  | ClubAnalysis => Some "Error in club analysis"
  | _ => None
  end.

Definition query_eqb (a b : query) : bool :=
  match a, b with
  | QPositions, QPositions | QClubs, QClubs
  | QTotal, QTotal | QAvgRating, QAvgRating | QAvgAge, QAvgAge
  | QTopPlayer, QTopPlayer | QClubCount, QClubCount
  | QRatingDist, QRatingDist | QNations, QNations | QAgeDist, QAgeDist
  | QTopClubs, QTopClubs | QTop50, QTop50
  | QGk, QGk | QLb, QLb | QCb1, QCb1 | QCb2, QCb2 | QRb, QRb
  | QCm1, QCm1 | QCm2, QCm2 | QCm3, QCm3 | QLw, QLw | QStriker, QStriker | QRw, QRw
  | QClubTalent, QClubTalent | QYouth, QYouth | QGems, QGems | QDepth, QDepth
  | QSkills, QSkills | QPhysical, QPhysical | QPositionStats, QPositionStats
  | QSearch, QSearch | QPosPlayers, QPosPlayers => true
  | _, _ => false
  end.

(** A store in which exactly the call site [q] raises. *)
Definition failing_at (q : query) (db : store) : store :=
  fun q' => if query_eqb q' q then Fails else
            match db q' with Fails => Rows | o => o end.

(** The statements of a block: those inside its try block when it has one,
    the whole block otherwise. *)
Definition body_of (db : store) (search_term : string) (b : block) : M unit :=
  match b with
  | Kpi => kpi_body db
  | BestXI => best_xi_body db
  | ClubAnalysis => club_analysis_body db
  | _ => run_block db search_term b
  end.

(** A computation of block [b] is tidy when it issues call sites of [b]
    only and raises exactly when a call site it issued fails. *)
Definition tidy (db : store) (b : block) {A : Type} (m : M A) : Prop :=
  (forall q, In (Issued q) (snd m) -> block_of q = b) /\
  (fst m = Raised <-> exists q, db q = Fails /\ In (Issued q) (snd m)).

End Page.


(** ** Vocabulary of the statements below *)

(** A list in descending order of an integer, resp. rational, column. *)
Definition sorted_desc {A : Type} (key : A -> Z) (l : list A) : Prop :=
  StronglySorted (fun x y => key y <= key x) l.

Definition sorted_descQ {A : Type} (key : A -> Q) (l : list A) : Prop :=
  StronglySorted (fun x y => (key y <= key x)%Q) l.

(** A Best XI slot that is empty because nobody matches, or holds a player
    of the allowed positions whose Overall no matching player exceeds. *)
Definition holds_best (ps : list string) (db : table) (s : list xi_row) : Prop :=
  (s = [] /\ forall p, In p db -> position_in ps p = false) \/
  (exists p, In p db /\ position_in ps p = true /\ s = [xi_of p] /\
     forall q, In q db -> position_in ps q = true -> Overall q <= Overall p).

(** A slot that holds the second row of the matching players in descending
    order of Overall: [p1] is the first row, [p2] the one shown, [rest] the
    rows after it. *)
Definition second_row (ps : list string) (db : table) (p1 p2 : player) : Prop :=
  exists rest,
    Permutation (p1 :: p2 :: rest) (filter (position_in ps) db) /\
    Overall p2 <= Overall p1 /\
    forall q, In q rest -> Overall q <= Overall p2.

Definition holds_second (ps : list string) (db : table) (s : list xi_row) : Prop :=
  (s = [] /\ (List.length (filter (position_in ps) db) < 2)%nat) \/
  (exists p1 p2, second_row ps db p1 p2 /\ s = [xi_of p2]).

(** A value without the quote character ['], the one that ends a literal. *)
Fixpoint quote_free (s : string) : bool :=
  match s with
  | EmptyString => true
  | String c s' => (negb (Sql.is_quote c) && quote_free s')%bool
  end.

(** The rows a filter selection asks for, in the words of the
    specification: Overall and Age within the inclusive ranges and, unless
    the selection is "All", equality on Position and on Club. *)
Definition selected (f : selection) (p : player) : bool :=
  ((min_rating f <=? Overall p) && (Overall p <=? max_rating f) &&
   (min_age f <=? Age p) && (Age p <=? max_age f) &&
   (String.eqb (selected_position f) "All" || String.eqb (Position p) (selected_position f)) &&
   (String.eqb (selected_club f) "All" || opt_eqb (Club p) (Some (selected_club f))))%bool.

(** The slider domains of lines 58-66. *)
Definition in_slider_domain (f : selection) : Prop :=
  0 <= min_rating f <= 100 /\ 0 <= max_rating f <= 100 /\
  16 <= min_age f <= 45 /\ 16 <= max_age f <= 45.

(** The condition [filter_clause] is meant to spell. *)
Definition filter_atoms (f : selection) : list Sql.atom :=
  [Sql.ABetween Sql.COverall (min_rating f) (max_rating f);
   Sql.ABetween Sql.CAge (min_age f) (max_age f)]
  ++ (if String.eqb (selected_position f) "All" then []
      else [Sql.AEq Sql.CPosition (selected_position f)])
  ++ (if String.eqb (selected_club f) "All" then []
      else [Sql.AEq Sql.CClub (selected_club f)]).

(** The tokens of the clause followed by [suffix], up to the point where
    the suffix starts. *)
Definition clause_tail (f : selection) (suffix : string) : list Sql.token :=
  match String.eqb (selected_position f) "All", String.eqb (selected_club f) "All" with
  | true, true => Sql.lex (Sql.LNum (max_age f)) suffix
  | false, true =>
      Sql.TInt (max_age f) :: Sql.TWord "AND" :: Sql.TWord "POSITION" :: Sql.TEq
        :: Sql.lex (Sql.LStrQ (selected_position f)) suffix
  | true, false =>
      Sql.TInt (max_age f) :: Sql.TWord "AND" :: Sql.TWord "CLUB" :: Sql.TEq
        :: Sql.lex (Sql.LStrQ (selected_club f)) suffix
  | false, false =>
      Sql.TInt (max_age f) :: Sql.TWord "AND" :: Sql.TWord "POSITION" :: Sql.TEq
        :: Sql.TStr (selected_position f) :: Sql.TWord "AND" :: Sql.TWord "CLUB" :: Sql.TEq
        :: Sql.lex (Sql.LStrQ (selected_club f)) suffix
  end.

(** A term without the two wildcards of LIKE. *)
Fixpoint wildcard_free (s : string) : bool :=
  match s with
  | EmptyString => true
  | String c s' =>
      (negb (Ascii.eqb c "%") && negb (Ascii.eqb c "_") && wildcard_free s')%bool
  end.

(** [contains t s]: the term [t] occurs in [s] as a substring. *)
Fixpoint starts_with (t s : string) : bool :=
  match t, s with
  | EmptyString, _ => true
  | String _ _, EmptyString => false
  | String c t', String d s' => (Ascii.eqb c d && starts_with t' s')%bool
  end.

Fixpoint contains (t s : string) : bool :=
  (starts_with t s ||
   match s with
   | EmptyString => false
   | String _ s' => contains t s'
   end)%bool.

(** A string with its ASCII letters in upper case. *)
Fixpoint fold_case (s : string) : string :=
  match s with
  | EmptyString => EmptyString
  | String c s' => String (Sql.upper c) (fold_case s')
  end.

(** The column a search type stands for. *)
Definition search_textcol (t : search_type) : Sql.textcol :=
  match t with
  | ByName => Sql.CName
  | ByClub => Sql.CClub
  | ByNationality => Sql.CNationality
  end.

(** The table without the rows of Hoffenheim. *)
Definition without_hoffenheim (db : table) : table :=
  filter (fun p => negb (club_is "Hoffenheim" p)) db.

(** ** Sample tables and selections *)

(** A table with one Real Madrid player. *)
Definition real_madrid : table :=
  [ mkPlayer 7 "L. Modric" 32 "Croatia" 91 91 (Some "Real Madrid") "CM" ].


(** Two centre-backs, rated 90 and 80. *)
Definition two_centre_backs : table :=
  [ mkPlayer 1 "V. van Dijk" 27 "Netherlands" 90 91 (Some "Liverpool") "CB";
    mkPlayer 2 "J. Gomez" 21 "England" 80 88 (Some "Liverpool") "CB" ].

(** A club whose name has an apostrophe, and the selection of that club. *)
Definition ohiggins : table :=
  [ mkPlayer 11 "P. Calandria" 36 "Argentina" 70 70 (Some "O'Higgins") "ST";
    mkPlayer 12 "L. Messi" 31 "Argentina" 94 94 (Some "FC Barcelona") "RW" ].

Definition ohiggins_selected : selection :=
  mkSelection "All" "O'Higgins" 60 100 18 45.

(** A table in which one row's Position is text that closes the literal and
    goes on with OR, and the selection of that position. *)
Definition crafted_position : string :=
  "x' OR Club = 'Hoffenheim' OR Club = 'zzz".

Definition hoffenheim : table :=
  [ mkPlayer 21 "A. Kramaric" 27 "Croatia" 82 83 (Some "Hoffenheim") "ST";
    mkPlayer 22 "N. N." 20 "Germany" 61 70 (Some "zzz") crafted_position ].

Definition crafted_selected : selection :=
  mkSelection crafted_position "All" 60 100 18 35.

(** A store in which every call site answers with rows. *)
Definition all_rows : Page.store := fun _ => Page.Rows.

(** * The rest of the script *)

(** ORDER BY key (ascending): the same stable insertion sort with the
    comparison turned around. *)
Definition order_by_asc {A K : Type} (ltb : K -> K -> bool) (key : A -> K)
  (l : list A) : list A :=
  order_by_desc (fun a b => ltb b a) key l.

(** ** Sidebar: the options of the two select boxes (lines 45-56) *)

(** [SELECT DISTINCT Position FROM players WHERE Position != ''
     ORDER BY Position] *)
Definition positions_df (db : table) : list string :=
  order_by_asc String.ltb (fun s => s)
    (distinct (filter (fun s => negb (String.eqb s "")) (map Position db))).

(** [SELECT DISTINCT Club FROM players WHERE Club != '' ORDER BY Club] *)
Definition clubs_df (db : table) : list string :=
  order_by_asc String.ltb (fun s => s) (clubs_of (filter (club_ne "") db)).

Definition position_options (db : table) : list string := "All" :: positions_df db.

(** [["All"] + clubs_df['Club'].head(50).tolist()] *)
Definition club_options (db : table) : list string := "All" :: firstn 50 (clubs_df db).

(** ** KPI row: the other four metrics (lines 84-104) *)

(** [ROUND(AVG(col), 1)] over the filtered rows, shown as 0 when the
    average is NULL (no row). *)
Definition avg_metric (col : player -> Z) (f : selection) (db : table) : result Q :=
  match Sql.select_where (filter_clause f) db with
  | Ok [] => Ok 0%Q
  | Ok rows => Ok (sql_round (avg (map col rows)) 1)
  | Raised => Raised
  end.

Definition avg_val : selection -> table -> result Q := avg_metric Overall.
Definition age_val : selection -> table -> result Q := avg_metric Age.

(** [... ORDER BY Overall DESC LIMIT 1]: the name and rating shown, "N/A"
    and 0 when the frame is empty. *)
Definition top_player (f : selection) (db : table) : result (string * Z) :=
  match Sql.select_where (filter_clause f) db with
  | Ok rows =>
      match limit 1 0 (order_by_desc Z.ltb Overall rows) with
      | p :: _ => Ok (Name p, Overall p)
      | [] => Ok ("N/A", 0)
      end
  | Raised => Raised
  end.

(** [SELECT COUNT(DISTINCT Club) ...]: NULL is not counted. *)
Definition clubs_count (f : selection) (db : table) : result Z :=
  match Sql.select_where (filter_clause f) db with
  | Ok rows => Ok (count (clubs_of rows))
  | Raised => Raised
  end.

(** ** Overview tab: the two distributions and the nationalities
       (lines 118-157) *)

Fixpoint distinctZ (l : list Z) : list Z :=
  match l with
  | [] => []
  | k :: l' => k :: filter (fun k' => negb (k' =? k)) (distinctZ l')
  end.

(** [SELECT col, COUNT( * ) as count ... GROUP BY col ORDER BY col] *)
Definition distribution (col : player -> Z) (rows : list player) : list (Z * Z) :=
  map (fun k => (k, count (filter (fun p => col p =? k) rows)))
    (order_by_asc Z.ltb (fun k => k) (distinctZ (map col rows))).

Definition rating_dist (f : selection) (db : table) : result (list (Z * Z)) :=
  match Sql.select_where (filter_clause f) db with
  | Ok rows => Ok (distribution Overall rows)
  | Raised => Raised
  end.

Definition age_dist (f : selection) (db : table) : result (list (Z * Z)) :=
  match Sql.select_where (filter_clause f) db with
  | Ok rows => Ok (distribution Age rows)
  | Raised => Raised
  end.

Record nation_count : Type := mkNationCount {
  nc_Nationality : string;
  nc_count : Z;
  nc_avg_rating : Q
}.

Definition nation_count_of (rows : list player) (n : string) : nation_count :=
  let g := filter (fun p => String.eqb (Nationality p) n) rows in
  {| nc_Nationality := n; nc_count := count g;
     nc_avg_rating := sql_round (avg (map Overall g)) 1 |}.

(** [SELECT Nationality, COUNT( * ) as count, ROUND(AVG(Overall), 1) ...
     GROUP BY Nationality ORDER BY count DESC LIMIT 15] *)
Definition nations (f : selection) (db : table) : result (list nation_count) :=
  match Sql.select_where (filter_clause f) db with
  | Ok rows =>
      Ok (limit 15 0
            (order_by_desc Z.ltb nc_count
               (map (nation_count_of rows) (distinct (map Nationality rows)))))
  | Raised => Raised
  end.

(** ** Top Players tab (lines 185-191) *)

(** The rows of the Top 50 table (of its ten columns, those of [player]). *)
Definition top_players (f : selection) (db : table) : result (list player) :=
  match Sql.select_where (filter_clause f) db with
  | Ok rows => Ok (limit 50 0 (order_by_desc Z.ltb Overall rows))
  | Raised => Raised
  end.

(** ** Best XI tab: the team statistics (lines 269-279) *)

(** [pd.concat([gk, lb, cb1, cb2, rb, cm1, cm2, cm3, lw, striker, rw])] *)
Definition all_players (db : table) : list xi_row :=
  gk db ++ lb db ++ cb1 db ++ cb2 db ++ rb db ++ cm1 db ++ cm2 db ++ cm3 db
    ++ lw db ++ striker db ++ rw db.

(** [all_players[col].mean() if not all_players.empty else 0] *)
Definition team_mean (col : xi_row -> Z) (db : table) : Q :=
  match all_players db with
  | [] => 0%Q
  | rows => avg (map col rows)
  end.

Definition avg_overall : table -> Q := team_mean xi_Overall.
Definition avg_age : table -> Q := team_mean xi_Age.

(** [all_players['Club'].nunique() if not all_players.empty else 0]: NULL
    is not counted. *)
Definition unique_clubs (db : table) : Z :=
  count (distinct (flat_map (fun r => match xi_Club r with Some c => [c] | None => [] end)
                            (all_players db))).

(** A small table for the examples: two clubs, a player without a club. *)
Definition squad : table :=
  [ mkPlayer 1 "L. Messi" 31 "Argentina" 94 94 (Some "FC Barcelona") "RW";
    mkPlayer 2 "M. ter Stegen" 26 "Germany" 89 92 (Some "FC Barcelona") "GK";
    mkPlayer 3 "S. Busquets" 29 "Spain" 89 89 (Some "FC Barcelona") "CDM";
    mkPlayer 4 "L. Modric" 32 "Croatia" 91 91 (Some "Real Madrid") "CM";
    mkPlayer 5 "T. Kroos" 28 "Germany" 90 90 (Some "Real Madrid") "CM";
    mkPlayer 6 "Vinicius Jr." 17 "Brazil" 77 92 (Some "Real Madrid") "LW";
    mkPlayer 7 "A. Nonimo" 25 "Spain" 65 70 None "ST" ].

(** A club with fifteen players, aged 19 to 33 and rated 71 to 85. *)
Definition ajax : table :=
  map (fun i => mkPlayer i "Player" (18 + i) "Netherlands" (70 + i) (75 + i)
                  (Some "Ajax") "CM")
      (map Z.of_nat (seq 1 15)).

(** The default sliders with both boxes on "All". *)
Definition default_selection : selection := mkSelection "All" "All" 60 100 18 35.

(** ** Vocabulary of the statements on the rest of the script *)

(** The number of quote characters of a text. *)
Fixpoint quotes (s : string) : nat :=
  match s with
  | EmptyString => O
  | String c s' => ((if Sql.is_quote c then 1 else 0) + quotes s')%nat
  end.

(** 1 inside a literal, 0 elsewhere: the quotes read so far that are still
    to be closed. *)
Definition open_quote (st : Sql.lstate) : nat :=
  match st with
  | Sql.LStr _ => 1
  | _ => 0
  end.

(** Text made of ASCII letters, digits, spaces, periods and quotes, as the
    names of players and clubs are.  (No character that starts a comment or
    another kind of quoting in SQL.) *)
Definition name_char (c : ascii) : bool :=
  (Sql.is_upper c || Sql.is_lower c || Sql.is_digit c
   || Ascii.eqb c " " || Ascii.eqb c "." || Sql.is_quote c)%bool.

Fixpoint name_like (s : string) : bool :=
  match s with
  | EmptyString => true
  | String c s' => (name_char c && name_like s')%bool
  end.

(** A list in ascending order of names, resp. strictly ascending order of
    integers. *)
Definition sorted_names (l : list string) : Prop :=
  StronglySorted (fun a b => String.leb a b = true) l.



(** The WHERE condition of the hidden gems query. *)
Definition hidden_gem (p : player) : bool :=
  ((15 <=? Potential p - Overall p) && (Age p <=? 24))%bool.

(** The rows a search is meant to find: the searched column is not NULL
    and matches [%term%]. *)
Definition found (t : search_type) (search_term : string) (p : player) : bool :=
  Sql.on_text (search_textcol t) p (Sql.like ("%" ++ search_term ++ "%")).

(** * Properties *)

(** ** Facts about ORDER BY and LIMIT *)

Section OrderByFacts.
Context {A K : Type}.
Variable ltb : K -> K -> bool.
Variable le : K -> K -> Prop.
Variable key : A -> K.
Hypothesis le_trans : forall a b c, le a b -> le b c -> le a c.
Hypothesis ltb_le : forall a b, ltb a b = true -> le a b.
Hypothesis nltb_le : forall a b, ltb a b = false -> le b a.

Let desc (x y : A) : Prop := le (key y) (key x).

Lemma insert_desc_perm (x : A) (l : list A) :
  Permutation (x :: l) (insert_desc ltb key x l).
Proof.
  induction l as [|y l IH]; simpl.
  - apply Permutation_refl.
  - destruct (ltb (key x) (key y)).
    + eapply perm_trans; [apply perm_swap|]. now apply perm_skip.
    + apply Permutation_refl.
Qed.

Lemma order_by_desc_perm (l : list A) :
  Permutation l (order_by_desc ltb key l).
Proof.
  induction l as [|x l IH]; simpl.
  - constructor.
  - eapply perm_trans; [apply perm_skip, IH|]. apply insert_desc_perm.
Qed.

Lemma order_by_desc_in (l : list A) (x : A) :
  In x (order_by_desc ltb key l) <-> In x l.
Proof.
  split; intro H.
  - eapply Permutation_in; [apply Permutation_sym, order_by_desc_perm|exact H].
  - eapply Permutation_in; [apply order_by_desc_perm|exact H].
Qed.

Lemma insert_desc_sorted (x : A) (l : list A) :
  StronglySorted desc l -> StronglySorted desc (insert_desc ltb key x l).
Proof.
  induction 1 as [|y l Hs IH Hy]; simpl.
  - repeat constructor.
  - destruct (ltb (key x) (key y)) eqn:E.
    + constructor; [exact IH|].
      rewrite Forall_forall in *. intros z Hz.
      apply (Permutation_in _ (Permutation_sym (insert_desc_perm x l))) in Hz.
      destruct Hz as [<-|Hz]; [now apply ltb_le|now apply Hy].
    + constructor; [now constructor|].
      constructor; [now apply nltb_le|].
      rewrite Forall_forall in *. intros z Hz.
      unfold desc. eapply le_trans; [apply (Hy z Hz)|now apply nltb_le].
Qed.

Lemma order_by_desc_sorted (l : list A) :
  StronglySorted desc (order_by_desc ltb key l).
Proof.
  induction l as [|x l IH]; simpl; [constructor|now apply insert_desc_sorted].
Qed.

End OrderByFacts.

Lemma order_by_Z_sorted {A : Type} (key : A -> Z) (l : list A) :
  sorted_desc key (order_by_desc Z.ltb key l).
Proof.
  apply (order_by_desc_sorted Z.ltb Z.le key).
  - intros a b c; lia.
  - intros a b H; apply Z.ltb_lt in H; lia.
  - intros a b H; apply Z.ltb_ge in H; lia.
Qed.

Lemma Qltb_true (a b : Q) : Qltb a b = true -> (a <= b)%Q.
Proof.
  unfold Qltb. intro H. apply negb_true_iff in H.
  destruct (Qlt_le_dec a b) as [L|L]; [now apply Qlt_le_weak|].
  apply Qle_bool_iff in L. congruence.
Qed.

Lemma Qltb_false (a b : Q) : Qltb a b = false -> (b <= a)%Q.
Proof.
  unfold Qltb. intro H. apply negb_false_iff in H. now apply Qle_bool_iff.
Qed.

Lemma order_by_Q_sorted {A : Type} (key : A -> Q) (l : list A) :
  sorted_descQ key (order_by_desc Qltb key l).
Proof.
  apply (order_by_desc_sorted Qltb Qle key).
  - intros a b c; apply Qle_trans.
  - apply Qltb_true.
  - apply Qltb_false.
Qed.

Section LimitFacts.
Context {A : Type}.
Variable R : A -> A -> Prop.

Lemma sorted_skipn (k : nat) (l : list A) :
  StronglySorted R l -> StronglySorted R (skipn k l).
Proof.
  revert l; induction k as [|k IH]; intros l H; simpl; [exact H|].
  destruct H; [constructor|now apply IH].
Qed.

Lemma sorted_firstn (n : nat) (l : list A) :
  StronglySorted R l -> StronglySorted R (firstn n l).
Proof.
  revert l; induction n as [|n IH]; intros l H; simpl; [constructor|].
  destruct H as [|x l Hs Hx]; constructor; [now apply IH|].
  rewrite Forall_forall in *. intros y Hy. apply Hx.
  revert Hy. clear. revert l. induction n as [|n IH]; intros [|z l]; simpl; try tauto.
  intros [->|H]; [now left|right; now apply IH].
Qed.

Lemma limit_sorted (n k : nat) (l : list A) :
  StronglySorted R l -> StronglySorted R (limit n k l).
Proof. intro H. unfold limit. now apply sorted_firstn, sorted_skipn. Qed.

Lemma limit_in (n k : nat) (l : list A) (x : A) :
  In x (limit n k l) -> In x l.
Proof.
  unfold limit. intro H.
  rewrite <- (firstn_skipn k l). apply in_or_app. right.
  rewrite <- (firstn_skipn n (skipn k l)). apply in_or_app. now left.
Qed.

Lemma limit_length (n k : nat) (l : list A) :
  (List.length (limit n k l) <= n)%nat.
Proof. unfold limit. apply firstn_le_length. Qed.

End LimitFacts.

(** ** Hidden gems *)

(** C4. Every row of the hidden gems frame comes from a player with
    (Potential - Overall) >= 15 and Age <= 24, so none has a growth below 15
    or an age above 24; its Growth column is Potential - Overall; and the
    frame is in descending order of Growth. *)
Theorem gems_filtered_and_sorted (db : table) :
  (forall g, In g (gems db) ->
     ~ (gem_Potential g - gem_Overall g < 15) /\ ~ (gem_Age g > 24) /\
     Growth g = gem_Potential g - gem_Overall g /\
     exists p, In p db /\ g = gem_of p) /\
  sorted_desc Growth (gems db).
Proof.
  unfold gems. split.
  - intros g Hg. apply limit_in in Hg.
    apply order_by_desc_in in Hg. apply in_map_iff in Hg.
    destruct Hg as [p [<- Hp]]. apply filter_In in Hp. destruct Hp as [Hp Hc].
    apply andb_true_iff in Hc. destruct Hc as [H1 H2].
    apply Z.leb_le in H1, H2. simpl.
    repeat split; try lia. now exists p.
  - apply limit_sorted, order_by_Z_sorted.
Qed.

(** ** Best XI *)

Lemma candidates_in (ps : list string) (db : table) (p : player) :
  In p (candidates ps db) <-> In p db /\ position_in ps p = true.
Proof.
  unfold candidates. rewrite order_by_desc_in. apply filter_In.
Qed.

Lemma candidates_sorted (ps : list string) (db : table) :
  sorted_desc Overall (candidates ps db).
Proof. apply order_by_Z_sorted. Qed.

Lemma candidates_perm (ps : list string) (db : table) :
  Permutation (candidates ps db) (filter (position_in ps) db).
Proof. apply Permutation_sym, order_by_desc_perm. Qed.

(** A slot query without OFFSET shows the first candidate. *)
Lemma slot_first (ps : list string) (db : table) :
  holds_best ps db (slot ps 0 db).
Proof.
  unfold holds_best, slot, limit. simpl skipn.
  pose proof (candidates_in ps db) as Hin.
  pose proof (candidates_sorted ps db) as Hs.
  destruct (candidates ps db) as [|c rest].
  - left. split; [reflexivity|]. intros p Hp.
    destruct (position_in ps p) eqn:E; [|reflexivity].
    destruct (proj2 (Hin p) (conj Hp E)).
  - right. exists c.
    destruct (proj1 (Hin c) (or_introl eq_refl)) as [Hc Hpos].
    repeat split; try assumption.
    intros q Hq Hqpos.
    destruct (proj2 (Hin q) (conj Hq Hqpos)) as [<-|Hr]; [lia|].
    apply StronglySorted_inv in Hs. destruct Hs as [_ Hall].
    rewrite Forall_forall in Hall. now apply Hall.
Qed.

(** A slot query with OFFSET 1 shows the second candidate. *)
Lemma slot_second (ps : list string) (db : table) :
  holds_second ps db (slot ps 1 db).
Proof.
  unfold holds_second, second_row, slot, limit.
  pose proof (candidates_perm ps db) as Hp.
  pose proof (candidates_sorted ps db) as Hs.
  destruct (candidates ps db) as [|c1 [|c2 rest]].
  - left. split; [reflexivity|]. apply Permutation_length in Hp. simpl in Hp. lia.
  - left. split; [reflexivity|]. apply Permutation_length in Hp. simpl in Hp. lia.
  - right. exists c1, c2. split; [|reflexivity]. exists rest.
    split; [exact Hp|].
    apply StronglySorted_inv in Hs. destruct Hs as [Hs H1].
    apply StronglySorted_inv in Hs. destruct Hs as [_ H2].
    rewrite Forall_forall in H1, H2.
    split; [apply H1; now left|exact H2].
Qed.

(** With two matching players the first and the second row are both there. *)
Lemma slot_first_and_second (ps : list string) (db : table) :
  (2 <= List.length (filter (position_in ps) db))%nat ->
  exists p1 p2,
    slot ps 0 db = [xi_of p1] /\ slot ps 1 db = [xi_of p2] /\ second_row ps db p1 p2.
Proof.
  intro Hlen. unfold second_row, slot, limit.
  pose proof (candidates_perm ps db) as Hp.
  pose proof (candidates_sorted ps db) as Hs.
  rewrite <- (Permutation_length Hp) in Hlen.
  destruct (candidates ps db) as [|c1 [|c2 rest]]; simpl in Hlen; try lia.
  exists c1, c2. repeat split. exists rest.
  split; [exact Hp|].
  apply StronglySorted_inv in Hs. destruct Hs as [Hs H1].
  apply StronglySorted_inv in Hs. destruct Hs as [_ H2].
  rewrite Forall_forall in H1, H2.
  split; [apply H1; now left|exact H2].
Qed.

(** C2, as amended. The nine slot queries without OFFSET (GK, LB, first CB,
    RB, the CM/CDM and the CM/CAM midfield slots, LW, ST, RW) are empty when
    no player has one of the slot's positions and otherwise hold a player
    of those positions with the greatest Overall.  The second CB slot and
    the third midfield slot (CM/CDM/CAM) are queried with OFFSET 1: they are
    empty when fewer than two players match and otherwise hold the second
    row in descending order of Overall.  For the players A (ST, 90) and
    B (CF, 85) the ST slot shows A. *)
Theorem best_xi_slots (db : table) :
  holds_best ["GK"] db (gk db) /\
  holds_best ["LB"; "LWB"] db (lb db) /\
  holds_best ["CB"] db (cb1 db) /\
  holds_second ["CB"] db (cb2 db) /\
  holds_best ["RB"; "RWB"] db (rb db) /\
  holds_best ["CM"; "CDM"] db (cm1 db) /\
  holds_best ["CM"; "CAM"] db (cm2 db) /\
  holds_second ["CM"; "CDM"; "CAM"] db (cm3 db) /\
  holds_best ["LW"; "LM"] db (lw db) /\
  holds_best ["ST"; "CF"] db (striker db) /\
  holds_best ["RW"; "RM"] db (rw db) /\
  (forall ia aa na pa ca ib ab nb pb cb,
     map xi_Name
       (striker [mkPlayer ia "A" aa na 90 pa ca "ST"; mkPlayer ib "B" ab nb 85 pb cb "CF"])
     = ["A"]).
Proof.
  repeat split; try apply slot_first; try apply slot_second.
Qed.

(** C2 fails on the slot queried with OFFSET 1: with two centre-backs rated
    90 and 80 the second CB slot is not empty and shows the one rated 80,
    who is not a centre-back of greatest Overall. *)
Lemma cb2_is_not_the_best : ~ holds_best ["CB"] two_centre_backs (cb2 two_centre_backs).
Proof.
  intros [[H _]|[p [_ [_ [H Hmax]]]]].
  - discriminate H.
  - destruct p as [i n a c o q cl ps]. unfold xi_of in H. simpl in H.
    assert (Ho : o = 80) by (vm_compute in H; congruence).
    specialize (Hmax (mkPlayer 1 "V. van Dijk" 27 "Netherlands" 90 91 (Some "Liverpool") "CB")
                  (or_introl eq_refl) eq_refl).
    simpl in Hmax. lia.
Qed.

(** C9. With at least two players at CB, the two CB slots show two rows of
    the table (two entries of the list of centre-backs, not one entry
    twice): the first shows a centre-back of greatest Overall, the second
    the next row in descending order, whose Overall is at most the first's
    and at least that of every remaining centre-back.  Likewise, with at
    least two players at CM, CDM or CAM the third midfield slot shows the
    second row of that combined set, not its first. *)
Theorem second_cb_and_third_cm (db : table) :
  ((2 <= List.length (filter (position_in ["CB"]) db))%nat ->
   exists p1 p2,
     cb1 db = [xi_of p1] /\ cb2 db = [xi_of p2] /\ second_row ["CB"] db p1 p2) /\
  ((2 <= List.length (filter (position_in ["CM"; "CDM"; "CAM"]) db))%nat ->
   exists p1 p2,
     cm3 db = [xi_of p2] /\ second_row ["CM"; "CDM"; "CAM"] db p1 p2).
Proof.
  split; intro H.
  - apply (slot_first_and_second ["CB"] db H).
  - destruct (slot_first_and_second ["CM"; "CDM"; "CAM"] db H) as [p1 [p2 [_ [H2 H3]]]].
    now exists p1, p2.
Qed.

Lemma second_cb_and_third_cm_witness :
  (2 <= List.length (filter (position_in ["CB"]) two_centre_backs))%nat /\
  exists p1 p2,
    cb1 two_centre_backs = [xi_of p1] /\ cb2 two_centre_backs = [xi_of p2] /\
    second_row ["CB"] two_centre_backs p1 p2.
Proof.
  split; [vm_compute; lia|].
  apply (proj1 (second_cb_and_third_cm two_centre_backs)). vm_compute; lia.
Defined.

(** ** GROUP BY Club *)

Lemma distinct_in (l : list string) (k : string) : In k (distinct l) <-> In k l.
Proof.
  induction l as [|x l IH]; simpl; [tauto|].
  rewrite filter_In, IH. destruct (String.eqb_spec k x) as [->|N]; simpl.
  - split; [intros _|]; now left.
  - split.
    + intros [E|[H _]]; [now left|now right].
    + intros [E|H]; [now left|right; now split].
Qed.

Lemma club_is_true (c : string) (p : player) : club_is c p = true <-> Club p = Some c.
Proof.
  unfold club_is, opt_eqb. destruct (Club p) as [s|].
  - rewrite String.eqb_eq. split; congruence.
  - split; discriminate.
Qed.

Lemma clubs_of_in (rows : list player) (c : string) :
  In c (clubs_of rows) <-> exists p, In p rows /\ Club p = Some c.
Proof.
  unfold clubs_of. rewrite distinct_in, in_flat_map. split.
  - intros [p [Hp Hc]]. exists p. split; [exact Hp|].
    destruct (Club p) as [s|]; simpl in Hc; [|tauto].
    destruct Hc as [->|[]]. reflexivity.
  - intros [p [Hp Hc]]. exists p. split; [exact Hp|]. rewrite Hc. now left.
Qed.

Lemma group_by_club_in (rows : list player) (g : string * list player) :
  In g (group_by_club rows) ->
  snd g = filter (club_is (fst g)) rows /\ exists p, In p rows /\ Club p = Some (fst g).
Proof.
  unfold group_by_club. rewrite in_map_iff. intros [c [<- Hc]]. simpl.
  split; [reflexivity|]. now apply clubs_of_in.
Qed.

(** A group of a table filtered on the club alone is the club's group in
    the whole table. *)
Lemma group_of_club_filter (keep : player -> bool) (db : table) (g : string * list player) :
  (forall p q, Club p = Club q -> keep p = keep q) ->
  In g (group_by_club (filter keep db)) ->
  snd g = filter (club_is (fst g)) db /\
  exists p, In p db /\ keep p = true /\ Club p = Some (fst g).
Proof.
  intros Hk Hg. apply group_by_club_in in Hg. destruct Hg as [Hs [p [Hp Hc]]].
  apply filter_In in Hp. destruct Hp as [Hp Hkp].
  split; [|now exists p].
  rewrite Hs. clear Hs Hp.
  assert (Hall : forall q, club_is (fst g) q = true -> keep q = true).
  { intros q E. apply club_is_true in E. rewrite <- Hkp. apply Hk. congruence. }
  induction db as [|q db IH]; simpl; [reflexivity|].
  destruct (club_is (fst g) q) eqn:E.
  - rewrite (Hall q E). simpl. rewrite E. now f_equal.
  - destruct (keep q); simpl; rewrite ?E; exact IH.
Qed.

(** ** Club talent ranking *)

(** The first [n] rows of a sorted list dominate the rows cut off. *)
Lemma sorted_firstn_skipn {A : Type} (R : A -> A -> Prop) (n : nat) (l : list A) :
  StronglySorted R l ->
  forall x y, In x (firstn n l) -> In y (skipn n l) -> R x y.
Proof.
  revert l. induction n as [|n IH]; intros l Hs x y Hx Hy; simpl in *; [tauto|].
  destruct Hs as [|z l Hs Hz]; simpl in *; [tauto|].
  destruct Hx as [<-|Hx].
  - rewrite Forall_forall in Hz. apply Hz.
    rewrite <- (firstn_skipn n l). apply in_or_app. now right.
  - now apply (IH l).
Qed.

Lemma club_talent_rows (db : table) :
  Permutation (map club (club_talent db)) (club_talent_query db).
Proof.
  unfold club_talent. destruct (club_talent_query db) as [|r rows]; [constructor|].
  eapply perm_trans.
  - apply Permutation_map, Permutation_sym, order_by_desc_perm.
  - rewrite map_map. simpl. rewrite map_id. apply Permutation_refl.
Qed.

Lemma club_talent_in (db : table) (r : ranked_club) :
  In r (club_talent db) ->
  In (club r) (club_talent_query db) /\ r = with_talent_index (club r).
Proof.
  unfold club_talent. destruct (club_talent_query db) as [|r0 rows]; [intros []|].
  intro H. apply order_by_desc_in in H. apply in_map_iff in H.
  destruct H as [c [<- Hc]]. simpl. now split.
Qed.

Lemma club_talent_sorted (db : table) : sorted_descQ TalentIndex (club_talent db).
Proof.
  unfold club_talent. destruct (club_talent_query db); [constructor|].
  apply order_by_Q_sorted.
Qed.

Lemma talent_where_club_only (p q : player) :
  Club p = Club q ->
  (club_ne "" p && club_not_null p && club_ne "Hoffenheim" p)%bool
  = (club_ne "" q && club_not_null q && club_ne "Hoffenheim" q)%bool.
Proof. unfold club_ne, club_not_null. now intros ->. Qed.

Lemma qualifying_club (db : table) (r : club_row) :
  In r (qualifying_clubs db) ->
  TotalPlayers r = count (filter (club_is (ct_Club r)) db) /\
  15 <= TotalPlayers r /\
  ct_Club r <> "Hoffenheim" /\ ct_Club r <> "".
Proof.
  unfold qualifying_clubs. intro H. apply filter_In in H. destruct H as [H H15].
  apply in_map_iff in H. destruct H as [g [<- Hg]].
  apply group_of_club_filter in Hg; [|apply talent_where_club_only].
  destruct Hg as [Hs [p [_ [Hk Hc]]]].
  apply Z.leb_le in H15. simpl in *. rewrite Hs.
  repeat split; try (rewrite <- Hs; exact H15).
  - unfold club_ne in Hk. rewrite Hc in Hk.
    intro E. rewrite E in Hk. simpl in Hk. rewrite !andb_false_r in Hk. discriminate.
  - unfold club_ne in Hk. rewrite Hc in Hk.
    intro E. rewrite E in Hk. simpl in Hk. discriminate.
Qed.

(** C3. Every club of the talent ranking has at least 15 players in the
    table (its TotalPlayers is the number of rows of that club).  The
    ranked clubs are exactly the rows of the SQL statement, which are the
    first 30 of the qualifying clubs in descending order of AvgRating: at
    most 30 clubs, and every qualifying club left outside has an AvgRating
    no greater than that of any ranked club.  The ranking carries the
    TalentIndex of lines 309-314 and is in descending order of it. *)
Theorem club_talent_ranking (db : table) :
  (forall r, In r (club_talent db) ->
     TotalPlayers (club r) = count (filter (club_is (ct_Club (club r))) db) /\
     ~ (TotalPlayers (club r) < 15) /\
     TalentIndex r =
       talent_index (AvgRating (club r)) (AvgPotential (club r))
                    (YoungTalents (club r)) (WorldClass (club r))) /\
  Permutation (map club (club_talent db)) (club_talent_query db) /\
  (exists outside,
     Permutation (club_talent_query db ++ outside) (qualifying_clubs db) /\
     (List.length (club_talent_query db) <= 30)%nat /\
     sorted_descQ AvgRating (club_talent_query db) /\
     forall r o, In r (club_talent_query db) -> In o outside ->
                 (AvgRating o <= AvgRating r)%Q) /\
  sorted_descQ TalentIndex (club_talent db).
Proof.
  split; [|split; [apply club_talent_rows|split; [|apply club_talent_sorted]]].
  - intros r Hr. apply club_talent_in in Hr. destruct Hr as [Hq Hr].
    apply limit_in, order_by_desc_in, qualifying_club in Hq.
    destruct Hq as [Hn [H15 _]].
    repeat split; [exact Hn|lia|now rewrite Hr at 1].
  - unfold club_talent_query, limit. simpl skipn.
    set (l := order_by_desc Qltb AvgRating (qualifying_clubs db)).
    assert (Hs : sorted_descQ AvgRating l) by apply order_by_Q_sorted.
    exists (skipn 30 l). repeat split.
    + rewrite firstn_skipn. apply Permutation_sym, order_by_desc_perm.
    + apply firstn_le_length.
    + now apply sorted_firstn.
    + intros r o Hr Ho.
      apply (sorted_firstn_skipn _ 30 l Hs r o Hr Ho).
Qed.

(** ** Talent index *)

Lemma rint_bounds (q : Q) : Qfloor q <= rint q <= Qfloor q + 1.
Proof.
  unfold rint. destruct (_ ?= _)%Q; [destruct (Z.even _)| |]; lia.
Qed.

Lemma Qcompare_cases (a b : Q) :
  ((a ?= b)%Q = Eq /\ (a == b)%Q) \/
  ((a ?= b)%Q = Lt /\ (a < b)%Q) \/
  ((a ?= b)%Q = Gt /\ (b < a)%Q).
Proof.
  destruct (a ?= b)%Q eqn:C.
  - left. split; [reflexivity|now apply Qeq_alt].
  - right; left. split; [reflexivity|now apply Qlt_alt].
  - right; right. split; [reflexivity|now apply Qgt_alt].
Qed.

(** Rounding to the nearest integer, halves to even, is monotone. *)
Lemma rint_monotone (x y : Q) : (x <= y)%Q -> rint x <= rint y.
Proof.
  intro H. pose proof (Qfloor_resp_le _ _ H) as Hf.
  pose proof (rint_bounds x) as Bx. pose proof (rint_bounds y) as By.
  destruct (Z.eq_dec (Qfloor x) (Qfloor y)) as [E|N]; [|lia].
  clear Bx By. unfold rint. rewrite <- E.
  destruct (Qcompare_cases (x - inject_Z (Qfloor x)) (1 # 2)) as [[-> Cx]|[[-> Cx]|[-> Cx]]];
  destruct (Qcompare_cases (y - inject_Z (Qfloor x)) (1 # 2)) as [[-> Cy]|[[-> Cy]|[-> Cy]]];
  try (destruct (Z.even (Qfloor x))); try lia; exfalso; lra.
Qed.

Lemma pow10_pos (d : nat) : (0 < pow10 d)%Q.
Proof.
  unfold pow10. change 0%Q with (inject_Z 0). rewrite <- Zlt_Qlt.
  apply Z.pow_pos_nonneg; lia.
Qed.

Lemma pd_round_monotone (x y : Q) (d : nat) :
  (x <= y)%Q -> (pd_round x d <= pd_round y d)%Q.
Proof.
  intro H. unfold pd_round. pose proof (pow10_pos d) as Hp.
  apply Qmult_le_compat_r.
  - rewrite <- Zle_Qle. apply rint_monotone. apply Qmult_le_compat_r; [exact H|].
    now apply Qlt_le_weak.
  - apply Qlt_le_weak, Qinv_lt_0_compat, Hp.
Qed.

Lemma talent_score_monotone (a a' p p' : Q) (y y' w w' : Z) :
  (a <= a')%Q -> (p <= p')%Q -> y <= y' -> w <= w' ->
  (talent_score a p y w <= talent_score a' p' y' w')%Q.
Proof.
  intros Ha Hp Hy Hw. unfold talent_score.
  assert (Hy2 : (inject_Z (y * 2) <= inject_Z (y' * 2))%Q) by (rewrite <- Zle_Qle; lia).
  rewrite Zle_Qle in Hw. lra.
Qed.

Lemma talent_index_monotone (a a' p p' : Q) (y y' w w' : Z) :
  (a <= a')%Q -> (p <= p')%Q -> y <= y' -> w <= w' ->
  (talent_index a p y w <= talent_index a' p' y' w')%Q.
Proof.
  intros. unfold talent_index. now apply pd_round_monotone, talent_score_monotone.
Qed.

(** The index is monotone in every arithmetic whose operations are, and it
    is the index of this file in the exact one. *)
Lemma talent_index_in_monotone (R : arithmetic) (a a' p p' : num R) (y y' w w' : Z) :
  monotone_arithmetic R ->
  num_le R a a' -> num_le R p p' -> y <= y' -> w <= w' ->
  num_le R (talent_index_in R a p y w) (talent_index_in R a' p' y' w').
Proof.
  intros [_ [_ [Hadd [Htimes [Hint Hround]]]]] Ha Hp Hy Hw. unfold talent_index_in.
  apply Hround. repeat apply Hadd.
  - apply Htimes; [discriminate|exact Ha].
  - apply Htimes; [discriminate|exact Hp].
  - apply Hint. lia.
  - apply Htimes; [discriminate|]. now apply Hint.
Qed.

Lemma exact_is_monotone : monotone_arithmetic exact.
Proof.
  unfold monotone_arithmetic. simpl. repeat split.
  - apply Qle_refl.
  - apply Qle_trans.
  - intros. now apply Qplus_le_compat.
  - intros c a a' Hc H. now apply Qmult_le_compat_r.
  - intros y y' H. now rewrite <- Zle_Qle.
  - intros a a' d. apply pd_round_monotone.
Qed.

Lemma talent_index_in_exact (a p : Q) (y w : Z) :
  talent_index_in exact a p y w = talent_index a p y w.
Proof. reflexivity. Qed.

(** C5. The TalentIndex, the weighted sum 0.4 AvgRating + 0.3 AvgPotential
    + 2 YoungTalents + 1.5 WorldClass rounded to two decimals as in line
    314, does not decrease when one of the four inputs grows and the other
    three stay fixed; the same holds of the weighted sum before rounding. *)
Theorem talent_index_monotone_in_each (a p : Q) (y w : Z) :
  (forall a', (a <= a')%Q ->
     (talent_index a p y w <= talent_index a' p y w)%Q /\
     (talent_score a p y w <= talent_score a' p y w)%Q) /\
  (forall p', (p <= p')%Q ->
     (talent_index a p y w <= talent_index a p' y w)%Q /\
     (talent_score a p y w <= talent_score a p' y w)%Q) /\
  (forall y', y <= y' ->
     (talent_index a p y w <= talent_index a p y' w)%Q /\
     (talent_score a p y w <= talent_score a p y' w)%Q) /\
  (forall w', w <= w' ->
     (talent_index a p y w <= talent_index a p y w')%Q /\
     (talent_score a p y w <= talent_score a p y w')%Q).
Proof.
  repeat split;
    (apply talent_index_monotone || apply talent_score_monotone);
    try assumption; try apply Qle_refl; try apply Z.le_refl.
Qed.

Lemma talent_index_monotone_in_each_witness :
  (7550 # 100 <= 7625 # 100)%Q /\
  (talent_index (7550 # 100) (80 # 1) 7 3 <= talent_index (7625 # 100) (80 # 1) 7 3)%Q.
Proof.
  assert (H : (7550 # 100 <= 7625 # 100)%Q) by (unfold Qle; simpl; lia).
  split; [exact H|].
  apply (proj1 (proj1 (talent_index_monotone_in_each (7550 # 100) (80 # 1) 7 3)
                 (7625 # 100) H)).
Defined.

(** ** The text of [filter_clause] as SQLite reads it *)

Lemma string_app_assoc (a b c : string) : ((a ++ b) ++ c = a ++ (b ++ c))%string.
Proof. induction a as [|x a IH]; simpl; [reflexivity|now rewrite IH]. Qed.

Lemma string_app_nil_r (a : string) : (a ++ "" = a)%string.
Proof. induction a as [|x a IH]; simpl; [reflexivity|now rewrite IH]. Qed.

(** A formatted slider value is read back as that number. *)
Lemma lex_show_int (n : Z) (rest : string) :
  0 <= n <= 100 ->
  Sql.lex Sql.LStart (show_int n ++ rest) = Sql.lex (Sql.LNum n) rest.
Proof.
  intro H.
  assert (E : exists k, (k <= 100)%nat /\ n = Z.of_nat k).
  { exists (Z.to_nat n). split; lia. }
  destruct E as [k [Hk ->]]. clear H.
  do 101 (destruct k as [|k]; [reflexivity|]).
  exfalso. lia.
Qed.

(** A quote-free value between quotes is read as one literal. *)
Lemma lex_literal (s : string) :
  quote_free s = true ->
  forall acc rest,
    Sql.lex (Sql.LStr acc) (s ++ String "'" rest) = Sql.lex (Sql.LStrQ (acc ++ s)) rest.
Proof.
  induction s as [|c s IH]; intros H acc rest; simpl in *.
  - now rewrite string_app_nil_r.
  - apply andb_true_iff in H. destruct H as [Hc Hs].
    apply negb_true_iff in Hc. rewrite Hc. simpl.
    rewrite (IH Hs). unfold Sql.snoc. now rewrite string_app_assoc.
Qed.

Section TemplateText.
Import Sql.

Lemma lex_where_overall (x : string) :
  lex LStart ("WHERE Overall BETWEEN " ++ x)
  = TWord "WHERE" :: TWord "OVERALL" :: TWord "BETWEEN" :: lex LStart x.
Proof. reflexivity. Qed.

Lemma lex_and (n : Z) (x : string) :
  lex (LNum n) (" AND " ++ x) = TInt n :: TWord "AND" :: lex LStart x.
Proof. reflexivity. Qed.

Lemma lex_and_age (n : Z) (x : string) :
  lex (LNum n) (" AND Age BETWEEN " ++ x)
  = TInt n :: TWord "AND" :: TWord "AGE" :: TWord "BETWEEN" :: lex LStart x.
Proof. reflexivity. Qed.

Lemma lex_and_position (n : Z) (x : string) :
  lex (LNum n) (" AND Position = '" ++ x)
  = TInt n :: TWord "AND" :: TWord "POSITION" :: TEq :: lex (LStr "") x.
Proof. reflexivity. Qed.

Lemma lex_and_club (n : Z) (x : string) :
  lex (LNum n) (" AND Club = '" ++ x)
  = TInt n :: TWord "AND" :: TWord "CLUB" :: TEq :: lex (LStr "") x.
Proof. reflexivity. Qed.

Lemma lex_literal_and_club (s x : string) :
  lex (LStrQ s) (" AND Club = '" ++ x)
  = TStr s :: TWord "AND" :: TWord "CLUB" :: TEq :: lex (LStr "") x.
Proof. reflexivity. Qed.

Lemma tokens_filter_clause (f : selection) (suffix : string) :
  in_slider_domain f ->
  quote_free (selected_position f) = true ->
  quote_free (selected_club f) = true ->
  tokens (filter_clause f ++ suffix)
  = TWord "WHERE" :: TWord "OVERALL" :: TWord "BETWEEN"
      :: TInt (min_rating f) :: TWord "AND" :: TInt (max_rating f)
      :: TWord "AND" :: TWord "AGE" :: TWord "BETWEEN"
      :: TInt (min_age f) :: TWord "AND" :: clause_tail f suffix.
Proof.
  intros [Ha [Hb [Hc Hd]]] Hp Hq.
  assert (Hc' : 0 <= min_age f <= 100) by lia.
  assert (Hd' : 0 <= max_age f <= 100) by lia.
  unfold tokens, filter_clause, clause_tail.
  destruct (String.eqb (selected_position f) "All");
  destruct (String.eqb (selected_club f) "All"); cbn [negb];
  repeat rewrite string_app_assoc;
  rewrite lex_where_overall, (lex_show_int _ _ Ha), lex_and, (lex_show_int _ _ Hb),
    lex_and_age, (lex_show_int _ _ Hc'), lex_and, (lex_show_int _ _ Hd').
  - reflexivity.
  - rewrite lex_and_club.
    change ("'" ++ suffix)%string with (String "'" suffix).
    now rewrite (lex_literal _ Hq).
  - rewrite lex_and_position.
    change ("'" ++ suffix)%string with (String "'" suffix).
    now rewrite (lex_literal _ Hp).
  - rewrite lex_and_position.
    change ("'" ++ " AND Club = '" ++ selected_club f ++ "'" ++ suffix)%string
      with (String "'" (" AND Club = '" ++ selected_club f ++ String "'" suffix)).
    rewrite (lex_literal _ Hp), lex_literal_and_club.
    now rewrite (lex_literal _ Hq).
Qed.

End TemplateText.

(** The clause of a quote-free selection is the intended condition. *)
Lemma parse_filter_clause (f : selection) :
  in_slider_domain f ->
  quote_free (selected_position f) = true ->
  quote_free (selected_club f) = true ->
  Sql.parse_where (filter_clause f) = Some [filter_atoms f].
Proof.
  intros Hd Hp Hq. unfold Sql.parse_where.
  rewrite <- (string_app_nil_r (filter_clause f)).
  rewrite (tokens_filter_clause f "" Hd Hp Hq).
  unfold clause_tail, filter_atoms.
  destruct (String.eqb (selected_position f) "All");
  destruct (String.eqb (selected_club f) "All"); reflexivity.
Qed.

(** The same with the two conditions the Top 15 Clubs query appends. *)
Lemma parse_top_clubs_clause (f : selection) :
  in_slider_domain f ->
  quote_free (selected_position f) = true ->
  quote_free (selected_club f) = true ->
  Sql.parse_where (filter_clause f ++ " AND Club != 'Hoffenheim' AND Club != ''")
  = Some [filter_atoms f ++ [Sql.ANe Sql.CClub "Hoffenheim"; Sql.ANe Sql.CClub ""]].
Proof.
  intros Hd Hp Hq. unfold Sql.parse_where.
  rewrite (tokens_filter_clause f _ Hd Hp Hq).
  unfold clause_tail, filter_atoms.
  destruct (String.eqb (selected_position f) "All");
  destruct (String.eqb (selected_club f) "All"); reflexivity.
Qed.

Lemma opt_eqb_some (o : option string) (v : string) :
  opt_eqb o (Some v) = match o with Some s => String.eqb s v | None => false end.
Proof. now destruct o. Qed.

(** The intended condition holds of the rows the selection asks for. *)
Lemma eval_filter_atoms (f : selection) (p : player) :
  forallb (Sql.eval_atom p) (filter_atoms f) = selected f p.
Proof.
  unfold filter_atoms, selected.
  destruct (String.eqb (selected_position f) "All");
  destruct (String.eqb (selected_club f) "All");
  simpl; unfold Sql.on_text; simpl; rewrite ?opt_eqb_some, ?andb_true_r, ?andb_assoc;
  reflexivity.
Qed.

(** ** KPI row: the player count *)

(** X1. For a selection within the slider domains whose position and club
    contain no quote character, the KPI count is the number of rows the
    selection asks for. *)
Lemma total_count_quote_free (f : selection) (db : table) :
  in_slider_domain f ->
  quote_free (selected_position f) = true ->
  quote_free (selected_club f) = true ->
  total_count f db = Ok (count (filter (selected f) db)).
Proof.
  intros Hd Hp Hq. unfold total_count, Sql.select_where.
  rewrite (parse_filter_clause f Hd Hp Hq). do 2 f_equal.
  apply filter_ext. intro p. unfold Sql.eval_cond. cbn [existsb].
  rewrite eval_filter_atoms. apply orb_false_r.
Qed.

(** ** Player search *)

Lemma starts_with_iff (t s : string) :
  starts_with t s = true <-> exists post, s = (t ++ post)%string.
Proof.
  revert s. induction t as [|c t IH]; intros s; simpl.
  - split; [intros _; now exists s|reflexivity].
  - destruct s as [|d s].
    + split; [discriminate|intros [post H]; discriminate].
    + rewrite andb_true_iff, Ascii.eqb_eq, IH. split.
      * intros [-> [post ->]]. now exists post.
      * intros [post H]. injection H as -> ->. split; [reflexivity|now exists post].
Qed.

Lemma contains_iff (t s : string) :
  contains t s = true <-> exists pre post, s = (pre ++ t ++ post)%string.
Proof.
  induction s as [|d s IH].
  - simpl. rewrite orb_false_r, starts_with_iff. split.
    + intros [post H]. now exists "", post.
    + intros [[|x pre] [post H]]; [now exists post|discriminate].
  - cbn [contains]. rewrite orb_true_iff, starts_with_iff, IH. split.
    + intros [[post H]|[pre [post H]]].
      * now exists "", post.
      * exists (String d pre), post. simpl. now rewrite H.
    + intros [[|x pre] [post H]].
      * left. now exists post.
      * right. simpl in H. injection H as _ H. now exists pre, post.
Qed.

Lemma like_percent_all (s : string) : Sql.like "%" s = true.
Proof. induction s as [|d s IH]; [reflexivity|exact IH]. Qed.

Lemma like_percent (pat s : string) :
  Sql.like (String "%" pat) s
  = (Sql.like pat s ||
     match s with
     | EmptyString => false
     | String _ s' => Sql.like (String "%" pat) s'
     end)%bool.
Proof. destruct s; reflexivity. Qed.

(** A wildcard-free term followed by [%] matches the strings that start
    with the term, letter case apart. *)
Lemma like_term_percent (t s : string) :
  wildcard_free t = true ->
  Sql.like (t ++ "%") s = starts_with (fold_case t) (fold_case s).
Proof.
  revert s. induction t as [|c t IH]; intros s H.
  - simpl. apply like_percent_all.
  - simpl in H. apply andb_true_iff in H. destruct H as [H Ht].
    apply andb_true_iff in H. destruct H as [H1 H2].
    apply negb_true_iff in H1, H2.
    cbn [append Sql.like fold_case]. rewrite H1.
    destruct s as [|d s]; [reflexivity|].
    cbn [fold_case starts_with]. now rewrite H2, (IH s Ht).
Qed.

(** [%term%] matches the strings that contain the term, letter case apart. *)
Lemma like_percent_term_percent (t s : string) :
  wildcard_free t = true ->
  Sql.like ("%" ++ t ++ "%") s = contains (fold_case t) (fold_case s).
Proof.
  intro H. change ("%" ++ t ++ "%")%string with (String "%" (t ++ "%")).
  induction s as [|d s IH]; rewrite like_percent, (like_term_percent _ _ H).
  - reflexivity.
  - cbn [fold_case contains]. now rewrite IH.
Qed.

Lemma quote_free_app (a b : string) :
  quote_free (a ++ b) = (quote_free a && quote_free b)%bool.
Proof.
  induction a as [|c a IH]; simpl; [reflexivity|]. now rewrite IH, andb_assoc.
Qed.

(** The WHERE clause of a quote-free term is one LIKE on the chosen column. *)
Lemma parse_search_where (t : search_type) (term : string) :
  quote_free term = true ->
  Sql.parse_where (search_where t term)
  = Some [[Sql.ALike (search_textcol t) ("%" ++ term ++ "%")]].
Proof.
  intro H. unfold Sql.parse_where, Sql.tokens, search_where.
  assert (E : forall x,
             Sql.lex Sql.LStart ("WHERE " ++ search_column t ++ " LIKE '%" ++ x)
             = Sql.TWord "WHERE" :: Sql.TWord (fold_case (search_column t))
                 :: Sql.TWord "LIKE" :: Sql.lex (Sql.LStr "%") x).
  { intro x. destruct t; reflexivity. }
  rewrite E.
  change (term ++ "%'")%string with (term ++ "%" ++ String "'" "")%string.
  rewrite <- string_app_assoc, lex_literal.
  - destruct t; reflexivity.
  - rewrite quote_free_app, H. reflexivity.
Qed.

Lemma results_quote_free (t : search_type) (term : string) (db : table) :
  quote_free term = true ->
  results t term db
  = Ok (limit 100 0
          (order_by_desc Z.ltb Overall
             (filter (fun p => Sql.on_text (search_textcol t) p
                                 (Sql.like ("%" ++ term ++ "%"))) db))).
Proof.
  intro H. unfold results, Sql.select_where. rewrite (parse_search_where t term H).
  do 3 f_equal. apply filter_ext. intro p.
  unfold Sql.eval_cond. simpl. now rewrite andb_true_r, orb_false_r.
Qed.

(** C6, as amended. For a non-empty term without quote and without the
    wildcards [%] and [_], and for each of the three search fields, the
    search returns rows of the table whose value in that field is not NULL
    and contains the term once both are folded to upper case (LIKE ignores
    the case of ASCII letters); it returns at most 100 rows, in descending
    order of Overall. *)
Theorem search_results (t : search_type) (term : string) (db : table) :
  term <> "" ->
  quote_free term = true ->
  wildcard_free term = true ->
  exists rows,
    results t term db = Ok rows /\
    (forall p, In p rows ->
       In p db /\
       exists v, searched t p = Some v /\
                 contains (fold_case term) (fold_case v) = true) /\
    (List.length rows <= 100)%nat /\
    sorted_desc Overall rows.
Proof.
  intros _ Hq Hw. rewrite (results_quote_free t term db Hq).
  eexists. split; [reflexivity|]. split; [|split].
  - intros p Hp. apply limit_in, order_by_desc_in, filter_In in Hp.
    destruct Hp as [Hp Hl]. split; [exact Hp|].
    unfold Sql.on_text in Hl.
    assert (E : Sql.text_of (search_textcol t) p = searched t p) by now destruct t.
    rewrite E in Hl. destruct (searched t p) as [v|]; [|discriminate].
    exists v. split; [reflexivity|].
    now rewrite <- (like_percent_term_percent term v Hw).
  - apply limit_length.
  - apply limit_sorted, order_by_Z_sorted.
Qed.

Lemma search_results_witness :
  exists rows,
    results ByClub "Real" real_madrid = Ok rows /\
    (forall p, In p rows ->
       In p real_madrid /\
       exists v, searched ByClub p = Some v /\
                 contains (fold_case "Real") (fold_case v) = true) /\
    (List.length rows <= 100)%nat /\
    sorted_desc Overall rows.
Proof.
  apply (search_results ByClub "Real" real_madrid); [discriminate|reflexivity|reflexivity].
Defined.

(** C6 fails as stated: LIKE ignores letter case, so the term "real" on the
    field Club returns the Real Madrid player, whose club does not contain
    the substring "real". *)
Lemma search_real_returns_Real_Madrid :
  exists p rows,
    results ByClub "real" real_madrid = Ok rows /\ In p rows /\
    searched ByClub p = Some "Real Madrid" /\
    ~ (exists pre post, "Real Madrid" = (pre ++ "real" ++ post)%string).
Proof.
  exists (mkPlayer 7 "L. Modric" 32 "Croatia" 91 91 (Some "Real Madrid") "CM").
  eexists. split; [vm_compute; reflexivity|].
  split; [now left|]. split; [reflexivity|].
  intro H. apply contains_iff in H. vm_compute in H. discriminate.
Qed.

(** The two slips the amended statement leaves out: a wildcard in the term
    is a wildcard of the pattern, and a quote in the term ends the literal. *)
Lemma search_underscore_matches_any_character :
  results ByClub "R_al" real_madrid = Ok real_madrid /\
  contains (fold_case "R_al") (fold_case "Real Madrid") = false.
Proof. split; vm_compute; reflexivity. Qed.

Lemma search_quote_raises : results ByName "O'Neil" real_madrid = Raised.
Proof. vm_compute. reflexivity. Qed.

(** ** Hoffenheim in the per-club aggregations *)

Lemma filter_absorb {A : Type} (f g : A -> bool) (l : list A) :
  (forall x, f x = true -> g x = true) ->
  filter f (filter g l) = filter f l.
Proof.
  intro H. induction l as [|x l IH]; simpl; [reflexivity|].
  destruct (f x) eqn:F.
  - rewrite (H x F). simpl. rewrite F. now f_equal.
  - destruct (g x); simpl; rewrite ?F; exact IH.
Qed.

Lemma club_ne_not_club_is (c : string) (p : player) :
  club_ne c p = true -> negb (club_is c p) = true.
Proof.
  unfold club_ne, club_is, opt_eqb. destruct (Club p); [tauto|discriminate].
Qed.

(** X25. The club talent ranking is computed from the table without the
    rows of Hoffenheim, and shows no club of that name. *)
Lemma club_talent_without_hoffenheim (db : table) :
  club_talent (without_hoffenheim db) = club_talent db /\
  forall r, In r (club_talent db) -> ct_Club (club r) <> "Hoffenheim".
Proof.
  split.
  - unfold club_talent, club_talent_query, qualifying_clubs, without_hoffenheim.
    rewrite filter_absorb; [reflexivity|].
    intros p H. apply andb_true_iff in H. destruct H as [_ H].
    now apply club_ne_not_club_is.
  - intros r Hr. apply club_talent_in in Hr. destruct Hr as [Hq _].
    apply limit_in, order_by_desc_in, qualifying_club in Hq. tauto.
Qed.

(** X26. The youth academies frame is computed from the table without the
    rows of Hoffenheim, and shows no club of that name. *)
Lemma youth_clubs_without_hoffenheim (db : table) :
  youth_clubs (without_hoffenheim db) = youth_clubs db /\
  forall r, In r (youth_clubs db) -> y_Club r <> "Hoffenheim".
Proof.
  split.
  - unfold youth_clubs, without_hoffenheim.
    rewrite filter_absorb; [reflexivity|].
    intros p H. apply andb_true_iff in H. destruct H as [_ H].
    now apply club_ne_not_club_is.
  - intros r Hr. unfold youth_clubs in Hr.
    apply limit_in, order_by_desc_in, filter_In in Hr. destruct Hr as [Hr _].
    apply in_map_iff in Hr. destruct Hr as [g [<- Hg]].
    apply group_by_club_in in Hg. destruct Hg as [_ [p [Hp Hc]]].
    apply filter_In in Hp. destruct Hp as [_ Hk].
    apply andb_true_iff in Hk. destruct Hk as [_ Hk].
    unfold club_ne in Hk. rewrite Hc in Hk. simpl.
    intro E. rewrite E in Hk. discriminate.
Qed.

Lemma eval_top_clubs_atoms (f : selection) (p : player) :
  forallb (Sql.eval_atom p)
    (filter_atoms f ++ [Sql.ANe Sql.CClub "Hoffenheim"; Sql.ANe Sql.CClub ""])
  = (selected f p && club_ne "Hoffenheim" p && club_ne "" p)%bool.
Proof.
  rewrite forallb_app, eval_filter_atoms. simpl.
  now rewrite andb_true_r, andb_assoc.
Qed.

Lemma top_clubs_quote_free (f : selection) (db : table) :
  in_slider_domain f ->
  quote_free (selected_position f) = true ->
  quote_free (selected_club f) = true ->
  top_clubs f db
  = Ok (limit 15 0
          (order_by_desc Z.ltb cc_count
             (map club_count_of
                (group_by_club
                   (filter (fun p => selected f p && club_ne "Hoffenheim" p && club_ne "" p)%bool
                      db))))).
Proof.
  intros Hd Hp Hq. unfold top_clubs, Sql.select_where.
  rewrite (parse_top_clubs_clause f Hd Hp Hq). do 5 f_equal.
  apply filter_ext. intro p. unfold Sql.eval_cond. cbn [existsb].
  rewrite eval_top_clubs_atoms. apply orb_false_r.
Qed.

(** X27. For a selection within the slider domains whose position and club
    contain no quote, the Top 15 Clubs chart is computed from the table
    without the rows of Hoffenheim, and shows no club of that name. *)
Lemma top_clubs_without_hoffenheim (f : selection) (db : table) :
  in_slider_domain f ->
  quote_free (selected_position f) = true ->
  quote_free (selected_club f) = true ->
  top_clubs f (without_hoffenheim db) = top_clubs f db /\
  exists rows, top_clubs f db = Ok rows /\
               forall r, In r rows -> cc_Club r <> "Hoffenheim".
Proof.
  intros Hd Hp Hq. rewrite !(top_clubs_quote_free f _ Hd Hp Hq). split.
  - unfold without_hoffenheim. rewrite filter_absorb; [reflexivity|].
    intros p H. apply andb_true_iff in H. destruct H as [H _].
    apply andb_true_iff in H. destruct H as [_ H].
    now apply club_ne_not_club_is.
  - eexists. split; [reflexivity|]. intros r Hr.
    apply limit_in, order_by_desc_in in Hr.
    apply in_map_iff in Hr. destruct Hr as [g [<- Hg]].
    apply group_by_club_in in Hg. destruct Hg as [_ [p [Hp' Hc]]].
    apply filter_In in Hp'. destruct Hp' as [_ Hk].
    apply andb_true_iff in Hk. destruct Hk as [Hk _].
    apply andb_true_iff in Hk. destruct Hk as [_ Hk].
    unfold club_ne in Hk. rewrite Hc in Hk. simpl.
    intro E. rewrite E in Hk. discriminate.
Qed.

(** C8 at the crafted selection: the position is offered by the select box
    (a row of the table has it), its quote ends the literal of
    [filter_clause], and the condition read by SQLite is
    [... AND Position = 'x' OR Club = 'Hoffenheim' OR Club = 'zzz' AND
    Club != 'Hoffenheim' AND Club != '']: the Top 15 Clubs query returns
    Hoffenheim, counted with its one player. *)
Theorem top_clubs_admits_hoffenheim :
  In crafted_position (map Position hoffenheim) /\
  Sql.parse_where (filter_clause crafted_selected ++ " AND Club != 'Hoffenheim' AND Club != ''")
  = Some [ [ Sql.ABetween Sql.COverall 60 100; Sql.ABetween Sql.CAge 18 35;
             Sql.AEq Sql.CPosition "x" ];
           [ Sql.AEq Sql.CClub "Hoffenheim" ];
           [ Sql.AEq Sql.CClub "zzz"; Sql.ANe Sql.CClub "Hoffenheim"; Sql.ANe Sql.CClub "" ] ] /\
  exists r rows,
    top_clubs crafted_selected hoffenheim = Ok rows /\ In r rows /\
    cc_Club r = "Hoffenheim" /\ cc_count r = 1.
Proof.
  split; [right; now left|]. split; [vm_compute; reflexivity|].
  eexists. eexists. split; [vm_compute; reflexivity|].
  split; [left; reflexivity|]. split; reflexivity.
Qed.

(** C1 at the selection of a club with an apostrophe: one row of the table
    is in the rating and age ranges and has that club, so the count asked
    for is 1; the quote of the name ends the literal of [filter_clause],
    SQLite rejects the statement and the KPI query raises. *)
Theorem total_count_raises_on_apostrophe :
  in_slider_domain ohiggins_selected /\
  In (Some (selected_club ohiggins_selected)) (map Club ohiggins) /\
  count (filter (selected ohiggins_selected) ohiggins) = 1 /\
  filter_clause ohiggins_selected
  = "WHERE Overall BETWEEN 60 AND 100 AND Age BETWEEN 18 AND 45 AND Club = 'O'Higgins'" /\
  total_count ohiggins_selected ohiggins = Raised.
Proof.
  split; [unfold in_slider_domain; simpl; lia|].
  split; [now left|]. repeat split; vm_compute; reflexivity.
Qed.

(** ** The page: exceptions and what is rendered *)

Section PageFacts.
Import Page.

Lemma tidy_ret (db : store) (b : block) {A : Type} (a : A) : tidy db b (ret a).
Proof.
  split; simpl; [tauto|]. split; [discriminate|intros [q [_ []]]].
Qed.

Lemma tidy_render (db : store) (b : block) (e : element) : tidy db b (render e).
Proof.
  split; simpl.
  - intros q [H|[]]; discriminate.
  - split; [discriminate|intros [q [_ [H|[]]]]; discriminate].
Qed.

Lemma tidy_load (db : store) (q : query) : tidy db (block_of q) (load_data db q).
Proof.
  unfold load_data. split.
  - intros q' H. destruct (db q); simpl in H; destruct H as [H|[]]; congruence.
  - destruct (db q) eqn:E; simpl; split; try discriminate; try reflexivity.
    + intros _. exists q. split; [exact E|now left].
    + intros [q' [F [H|[]]]]. congruence.
    + intros [q' [F [H|[]]]]. congruence.
Qed.

Lemma tidy_bind (db : store) (b : block) {A B : Type} (m : M A) (k : A -> M B) :
  tidy db b m -> (forall a, tidy db b (k a)) -> tidy db b (bind m k).
Proof.
  intros [Hi Hr] Hk. destruct m as [[a|] log]; simpl in *.
  - destruct (Hk a) as [Ki Kr]. destruct (k a) as [r log']. simpl in *. split.
    + intros q H. apply in_app_or in H. destruct H; [now apply Hi|now apply Ki].
    + rewrite Kr. split.
      * intros [q [F H]]. exists q. split; [exact F|apply in_or_app; now right].
      * intros [q [F H]]. apply in_app_or in H. destruct H as [H|H].
        -- assert (X : @Ok A a = Raised) by (apply Hr; now exists q). discriminate.
        -- now exists q.
  - split; [exact Hi|]. split; [intros _; now apply Hr|reflexivity].
Qed.

Lemma tidy_when (db : store) (b : block) (c : bool) (m : M unit) :
  tidy db b m -> tidy db b (when c m).
Proof. destruct c; simpl; [tauto|intros _; apply tidy_ret]. Qed.

Ltac tidy_step :=
  first
    [ apply tidy_bind; [|intro]
    | match goal with
      | |- tidy ?db _ (load_data _ ?q) => exact (tidy_load db q)
      end
    | apply tidy_render
    | apply tidy_ret
    | apply tidy_when
    | match goal with
      | |- tidy _ _ (if ?c then _ else _) => destruct c
      end ].

(** The statements of every block are tidy. *)
Lemma tidy_body (db : store) (search_term : string) (b : block) :
  tidy db b (body_of db search_term b).
Proof.
  destruct b; simpl;
    unfold sidebar, kpi_body, overview, top_players, best_xi_body, club_analysis_body,
           skills, search, deep_dive;
    repeat tidy_step.
Qed.

Lemma run_block_body (db : store) (search_term : string) (b : block) :
  run_block db search_term b
  = match handler_of b with
    | Some msg => try_except (body_of db search_term b) (render (ErrorBox msg))
    | None => body_of db search_term b
    end.
Proof. destruct b; reflexivity. Qed.

Lemma try_except_render (body : M unit) (e : element) :
  try_except body (render e)
  = (Ok tt, snd body ++ match fst body with Raised => [Rendered e] | Ok _ => [] end).
Proof.
  destruct body as [[[]|] log]; simpl; [now rewrite app_nil_r|reflexivity].
Qed.

(** A block issues its own call sites only. *)
Lemma block_issues (db : store) (search_term : string) (b : block) (q : query) :
  In (Issued q) (snd (run_block db search_term b)) -> block_of q = b.
Proof.
  rewrite run_block_body. destruct (tidy_body db search_term b) as [Hi _].
  destruct (handler_of b); [|apply Hi].
  rewrite try_except_render. simpl. intro H. apply in_app_or in H.
  destruct H as [H|H]; [now apply Hi|].
  destruct (fst (body_of db search_term b)); simpl in H; [tauto|].
  destruct H as [H|[]]. discriminate.
Qed.

(** A block with a handler returns; a block without one returns when none
    of its call sites fails. *)
Lemma block_returns (db : store) (search_term : string) (b : block) :
  handler_of b <> None \/ (forall q, block_of q = b -> db q <> Fails) ->
  fst (run_block db search_term b) = Ok tt.
Proof.
  rewrite run_block_body. intro H.
  destruct (handler_of b) as [msg|] eqn:E.
  - now rewrite try_except_render.
  - destruct H as [H|H]; [congruence|].
    destruct (tidy_body db search_term b) as [Hi Hr].
    destruct (fst (body_of db search_term b)) as [[]|] eqn:F; [reflexivity|].
    destruct (proj1 Hr eq_refl) as [q [Hq Hin]].
    destruct (H q (Hi q Hin) Hq).
Qed.

(** In a block with a handler, a failing call site that was issued leaves
    the handler's message. *)
Lemma block_handles (db : store) (search_term : string) (b : block) (q : query) (msg : string) :
  handler_of b = Some msg ->
  db q = Fails ->
  In (Issued q) (snd (run_block db search_term b)) ->
  In (Rendered (ErrorBox msg)) (snd (run_block db search_term b)).
Proof.
  rewrite run_block_body. intros -> Hq. rewrite try_except_render. simpl.
  destruct (tidy_body db search_term b) as [_ Hr].
  intro H. apply in_or_app. apply in_app_or in H. destruct H as [H|H].
  - right. rewrite (proj2 Hr (ex_intro _ q (conj Hq H))). now left.
  - right. destruct (fst (body_of db search_term b)); [destruct H|now left].
Qed.

(** A block depends on the store through its own call sites only. *)
Lemma block_ext (db db' : store) (search_term : string) (b : block) :
  (forall q, block_of q = b -> db q = db' q) ->
  run_block db search_term b = run_block db' search_term b.
Proof.
  intro H. destruct b; simpl;
    unfold sidebar, kpi, kpi_body, overview, top_players, best_xi, best_xi_body,
           club_analysis, club_analysis_body, skills, search, deep_dive, load_data;
    rewrite ?(H QPositions eq_refl), ?(H QClubs eq_refl),
      ?(H QTotal eq_refl), ?(H QAvgRating eq_refl), ?(H QAvgAge eq_refl),
      ?(H QTopPlayer eq_refl), ?(H QClubCount eq_refl),
      ?(H QRatingDist eq_refl), ?(H QNations eq_refl), ?(H QAgeDist eq_refl),
      ?(H QTopClubs eq_refl), ?(H QTop50 eq_refl),
      ?(H QGk eq_refl), ?(H QLb eq_refl), ?(H QCb1 eq_refl), ?(H QCb2 eq_refl),
      ?(H QRb eq_refl), ?(H QCm1 eq_refl), ?(H QCm2 eq_refl), ?(H QCm3 eq_refl),
      ?(H QLw eq_refl), ?(H QStriker eq_refl), ?(H QRw eq_refl),
      ?(H QClubTalent eq_refl), ?(H QYouth eq_refl), ?(H QGems eq_refl),
      ?(H QDepth eq_refl),
      ?(H QSkills eq_refl), ?(H QPhysical eq_refl), ?(H QPositionStats eq_refl),
      ?(H QSearch eq_refl), ?(H QPosPlayers eq_refl);
    reflexivity.
Qed.

(** The log of a run holds, under each block's name, entries of that block. *)
Lemma run_log_in (db : store) (search_term : string) (bs : list block) (b : block) (it : item) :
  In (b, it) (snd (run db search_term bs)) ->
  In b bs /\ In it (snd (run_block db search_term b)).
Proof.
  induction bs as [|b0 bs IH]; simpl; [tauto|].
  unfold within. destruct (run_block db search_term b0) as [[u|] log] eqn:E; simpl.
  - destruct (run db search_term bs) as [r log']. simpl in *.
    intro H. apply in_app_or in H. destruct H as [H|H].
    + apply in_map_iff in H. destruct H as [x [Hx Hin]]. injection Hx as <- <-.
      rewrite E. split; [now left|exact Hin].
    + destruct (IH H) as [H1 H2]. split; [now right|exact H2].
  - intro H. apply in_map_iff in H. destruct H as [x [Hx Hin]]. injection Hx as <- <-.
    rewrite E. split; [now left|exact Hin].
Qed.

(** When every block returns, the run returns and its log is the logs of
    the blocks, one after the other. *)
Lemma run_returns (db : store) (search_term : string) (bs : list block) :
  (forall b, In b bs -> fst (run_block db search_term b) = Ok tt) ->
  fst (run db search_term bs) = Ok tt /\
  forall b it, In (b, it) (snd (run db search_term bs)) <->
               In b bs /\ In it (snd (run_block db search_term b)).
Proof.
  intro H. induction bs as [|b0 bs IH]; simpl.
  - split; [reflexivity|]. intros b it. simpl. tauto.
  - destruct IH as [IH1 IH2]; [intros b Hb; apply H; now right|].
    pose proof (H b0 (or_introl eq_refl)) as H0.
    unfold within. destruct (run_block db search_term b0) as [r0 log0] eqn:E.
    simpl in H0. subst r0. simpl.
    destruct (run db search_term bs) as [r log']. simpl in *.
    split; [exact IH1|]. intros b it. rewrite in_app_iff, IH2, in_map_iff. split.
    + intros [[x [Hx Hin]]|[Hb Hin]].
      * injection Hx as <- <-. rewrite E. split; [now left|exact Hin].
      * split; [now right|exact Hin].
    + intros [[<-|Hb] Hin].
      * left. exists it. rewrite E in Hin. now split.
      * right. now split.
Qed.

Lemma query_eqb_eq (a b : query) : query_eqb a b = true <-> a = b.
Proof. destruct a, b; simpl; split; intro H; try reflexivity; discriminate. Qed.

End PageFacts.

(** C7, as amended. Take a run in which exactly one call site [q] fails,
    [q] lying in one of the three blocks whose statements are in a try
    block (the KPI row, the Best XI tab, the club analysis), and compare it
    with a run in which [q] answers and every other call site answers the
    same.  The script runs to its end; if [q] was issued, the handler of
    its block leaves its error message in that block; and every entry of
    every other block, queries issued and elements rendered, is the same
    in both runs. *)
Theorem failure_stays_in_its_try_block
  (failing answering : Page.store) (search_term : string) (q : Page.query) (msg : string) :
  Page.handler_of (Page.block_of q) = Some msg ->
  failing q = Page.Fails ->
  (forall q', q' <> q -> failing q' <> Page.Fails /\ answering q' = failing q') ->
  answering q <> Page.Fails ->
  fst (Page.page failing search_term) = Ok tt /\
  (In (Page.block_of q, Page.Issued q) (snd (Page.page failing search_term)) ->
   In (Page.block_of q, Page.Rendered (Page.ErrorBox msg))
      (snd (Page.page failing search_term))) /\
  (forall b it, b <> Page.block_of q ->
     (In (b, it) (snd (Page.page answering search_term)) <->
      In (b, it) (snd (Page.page failing search_term)))).
Proof.
  intros G Hq Hothers Ha. unfold Page.page.
  destruct (run_returns failing search_term Page.script) as [F1 F2].
  { intros b _. apply block_returns.
    destruct (Page.handler_of b) eqn:E; [left; discriminate|right].
    intros q' Hb. apply Hothers. intros ->. congruence. }
  destruct (run_returns answering search_term Page.script) as [_ H2].
  { intros b _. apply block_returns. right. intros q' _ Hf.
    destruct (Page.query_eqb q' q) eqn:E.
    - apply query_eqb_eq in E. subst q'. contradiction.
    - assert (N : q' <> q) by (intros ->; rewrite (proj2 (query_eqb_eq q q) eq_refl) in E;
                               discriminate).
      destruct (Hothers q' N) as [H1 H3]. congruence. }
  split; [exact F1|]. split.
  - intro H. apply F2 in H. destruct H as [Hb H]. apply F2. split; [exact Hb|].
    apply (block_handles _ _ _ q msg G Hq H).
  - intros b it N. rewrite F2, H2.
    rewrite (block_ext failing answering search_term b); [reflexivity|].
    intros q' Hb. symmetry. apply Hothers. intros ->. congruence.
Qed.

Lemma failure_stays_in_its_try_block_witness :
  fst (Page.page (Page.failing_at Page.QTotal all_rows) "") = Ok tt /\
  (In (Page.Kpi, Page.Issued Page.QTotal)
      (snd (Page.page (Page.failing_at Page.QTotal all_rows) "")) ->
   In (Page.Kpi, Page.Rendered (Page.ErrorBox "Error loading metrics"))
      (snd (Page.page (Page.failing_at Page.QTotal all_rows) ""))) /\
  (forall b it, b <> Page.Kpi ->
     (In (b, it) (snd (Page.page all_rows "")) <->
      In (b, it) (snd (Page.page (Page.failing_at Page.QTotal all_rows) "")))).
Proof.
  apply (failure_stays_in_its_try_block
           (Page.failing_at Page.QTotal all_rows) all_rows "" Page.QTotal
           "Error loading metrics").
  - reflexivity.
  - reflexivity.
  - intros q' N. destruct q'; try (split; [discriminate|reflexivity]).
    now destruct N.
  - discriminate.
Defined.

(** C7 fails as stated: the five KPI metrics share one try block.  When the
    Total Players query is the one query that fails, the Avg Rating metric,
    which the run without the failure renders, is not rendered. *)
Lemma kpi_failure_hides_the_other_metrics :
  Page.failing_at Page.QTotal all_rows Page.QTotal = Page.Fails /\
  (forall q, q <> Page.QTotal -> Page.failing_at Page.QTotal all_rows q <> Page.Fails) /\
  In (Page.Kpi, Page.Rendered (Page.Metric "Avg Rating"))
     (snd (Page.page all_rows "")) /\
  ~ In (Page.Kpi, Page.Rendered (Page.Metric "Avg Rating"))
       (snd (Page.page (Page.failing_at Page.QTotal all_rows) "")).
Proof.
  split; [reflexivity|]. split; [intros q N; now destruct q|]. split.
  - vm_compute. tauto.
  - vm_compute. intuition discriminate.
Qed.

(** What the amended statement leaves out: the Overview tab has no try
    block.  When its first query is the one that fails the script stops
    there: no message is rendered for it and the Top Players table, rendered
    in the run without the failure, is missing. *)
Lemma overview_failure_ends_the_run :
  fst (Page.page (Page.failing_at Page.QRatingDist all_rows) "") = Raised /\
  (forall b msg, ~ In (b, Page.Rendered (Page.ErrorBox msg))
                      (snd (Page.page (Page.failing_at Page.QRatingDist all_rows) ""))) /\
  In (Page.TopPlayers, Page.Rendered (Page.Dataframe "top_players"))
     (snd (Page.page all_rows "")) /\
  ~ In (Page.TopPlayers, Page.Rendered (Page.Dataframe "top_players"))
       (snd (Page.page (Page.failing_at Page.QRatingDist all_rows) "")).
Proof.
  split; [reflexivity|]. split; [|split].
  - intros b msg. vm_compute. intuition discriminate.
  - vm_compute. tauto.
  - vm_compute. intuition discriminate.
Qed.

(** C10. With an empty search term the search panel issues no query and
    renders nothing, whatever the store answers: no entry of the page's log
    belongs to it.  Hence an issued search query, a results table or the
    no-match warning in the log means that the term was not empty. *)
Theorem empty_search_term_is_silent (db : Page.store) :
  Page.search db "" = (Ok tt, []) /\
  (forall it, ~ In (Page.SearchPanel, it) (snd (Page.page db ""))) /\
  (forall search_term it,
     In (Page.SearchPanel, it) (snd (Page.page db search_term)) -> search_term <> "").
Proof.
  assert (H : forall it, ~ In (Page.SearchPanel, it) (snd (Page.page db ""))).
  { intros it Hin. apply run_log_in in Hin. destruct Hin as [_ []]. }
  split; [reflexivity|]. split; [exact H|].
  intros search_term it Hin ->. exact (H it Hin).
Qed.

(** With a term that is not empty the query is issued, and the table or the
    warning follows its answer. *)
Lemma search_term_issues_the_query (db : Page.store) (search_term : string) :
  search_term <> "" ->
  Page.search db search_term
  = match db Page.QSearch with
    | Page.Fails => (Raised, [Page.Issued Page.QSearch])
    | Page.Empty =>
        (Ok tt, [Page.Issued Page.QSearch;
                 Page.Rendered
                   (Page.WarningBox "No players found matching your search criteria.")])
    | Page.Rows =>
        (Ok tt, [Page.Issued Page.QSearch;
                 Page.Rendered (Page.Text "Found results");
                 Page.Rendered (Page.Dataframe "results")])
    end.
Proof.
  intro N. destruct search_term as [|c s]; [contradiction|].
  unfold Page.search, Page.load_data. simpl. destruct (db Page.QSearch); reflexivity.
Qed.

(** * Properties of the rest of the script *)

(** ** KPI row *)

(** The clause of a quote-free selection keeps the rows the selection asks
    for. *)
Lemma select_filter_clause (f : selection) (db : table) :
  in_slider_domain f ->
  quote_free (selected_position f) = true ->
  quote_free (selected_club f) = true ->
  Sql.select_where (filter_clause f) db = Ok (filter (selected f) db).
Proof.
  intros Hd Hp Hq. unfold Sql.select_where.
  rewrite (parse_filter_clause f Hd Hp Hq). f_equal.
  apply filter_ext. intro p. unfold Sql.eval_cond. cbn [existsb].
  rewrite eval_filter_atoms. apply orb_false_r.
Qed.

Lemma total_count_quote_free_witness :
  total_count (mkSelection "CM" "Real Madrid" 60 100 18 35) squad
  = Ok (count (filter (selected (mkSelection "CM" "Real Madrid" 60 100 18 35)) squad)).
Proof.
  apply (total_count_quote_free (mkSelection "CM" "Real Madrid" 60 100 18 35) squad).
  - unfold in_slider_domain. simpl. lia.
  - reflexivity.
  - reflexivity.
Defined.

Lemma selected_in_range (f : selection) (p : player) :
  selected f p = true ->
  min_rating f <= Overall p <= max_rating f /\ min_age f <= Age p <= max_age f.
Proof.
  unfold selected. rewrite !andb_true_iff, !Z.leb_le. tauto.
Qed.

Lemma distinct_length (l : list string) : (List.length (distinct l) <= List.length l)%nat.
Proof.
  induction l as [|x l IH]; simpl; [lia|].
  pose proof (filter_length_le (fun k' => negb (String.eqb k' x)) (distinct l)). lia.
Qed.




(** Rounding keeps a value between two integers between them. *)
Lemma round_half_away_between (q : Q) (lo hi : Z) :
  (inject_Z lo <= q)%Q -> (q <= inject_Z hi)%Q ->
  lo <= round_half_away q <= hi.
Proof.
  intros Hlo Hhi. unfold round_half_away.
  destruct (Qle_bool 0 q).
  - pose proof (Qfloor_le (q + (1 # 2))) as H1.
    pose proof (Qlt_floor (q + (1 # 2))) as H2.
    rewrite inject_Z_plus in H2. change (inject_Z 1) with 1%Q in H2.
    set (r := Qfloor (q + (1 # 2))) in *. split.
    + apply Z.lt_succ_r. unfold Z.succ. rewrite Zlt_Qlt, inject_Z_plus.
      change (inject_Z 1) with 1%Q. lra.
    + apply Z.lt_succ_r. unfold Z.succ. rewrite Zlt_Qlt, inject_Z_plus.
      change (inject_Z 1) with 1%Q. lra.
  - pose proof (Qle_ceiling (q - (1 # 2))) as H1.
    pose proof (Qceiling_lt (q - (1 # 2))) as H2.
    unfold Z.sub in H2. rewrite inject_Z_plus in H2. change (inject_Z (- (1))) with (- (1))%Q in H2.
    set (r := Qceiling (q - (1 # 2))) in *. split.
    + apply Z.lt_succ_r. unfold Z.succ. rewrite Zlt_Qlt, inject_Z_plus.
      change (inject_Z 1) with 1%Q. lra.
    + apply Z.lt_succ_r. unfold Z.succ. rewrite Zlt_Qlt, inject_Z_plus.
      change (inject_Z 1) with 1%Q. lra.
Qed.

Lemma sql_round_between (q : Q) (d : nat) (lo hi : Z) :
  (inject_Z lo <= q)%Q -> (q <= inject_Z hi)%Q ->
  (inject_Z lo <= sql_round q d)%Q /\ (sql_round q d <= inject_Z hi)%Q.
Proof.
  intros Hlo Hhi. unfold sql_round. pose proof (pow10_pos d) as Hp.
  assert (E : forall z, (inject_Z z * pow10 d == inject_Z (z * 10 ^ Z.of_nat d))%Q).
  { intro z. unfold pow10. now rewrite inject_Z_mult. }
  destruct (round_half_away_between (q * pow10 d) (lo * 10 ^ Z.of_nat d)
              (hi * 10 ^ Z.of_nat d)) as [H1 H2].
  - rewrite <- E. apply Qmult_le_compat_r; [exact Hlo|now apply Qlt_le_weak].
  - rewrite <- E. apply Qmult_le_compat_r; [exact Hhi|now apply Qlt_le_weak].
  - rewrite Zle_Qle, <- E in H1. rewrite Zle_Qle, <- E in H2. split.
    + now apply Qle_shift_div_l.
    + now apply Qle_shift_div_r.
Qed.

Lemma sum_between (l : list Z) (lo hi : Z) :
  (forall x, In x l -> lo <= x <= hi) ->
  lo * count l <= sum l <= hi * count l.
Proof.
  unfold count. induction l as [|x l IH]; intro H.
  - simpl. lia.
  - assert (Hx : lo <= x <= hi) by (apply H; now left).
    assert (Hl : lo * Z.of_nat (List.length l) <= sum l <= hi * Z.of_nat (List.length l)).
    { apply IH. intros y Hy. apply H. now right. }
    change (sum (x :: l)) with (x + sum l).
    change (List.length (x :: l)) with (S (List.length l)). lia.
Qed.

(** The average of a non-empty list lies between its bounds. *)
Lemma avg_between (l : list Z) (lo hi : Z) :
  l <> [] ->
  (forall x, In x l -> lo <= x <= hi) ->
  (inject_Z lo <= avg l)%Q /\ (avg l <= inject_Z hi)%Q.
Proof.
  intros Hne H. destruct (sum_between l lo hi H) as [H1 H2].
  assert (Hc : (0 < inject_Z (count l))%Q).
  { change 0%Q with (inject_Z 0). rewrite <- Zlt_Qlt. unfold count.
    destruct l; [contradiction|simpl; lia]. }
  unfold avg. split.
  - apply Qle_shift_div_l; [exact Hc|]. rewrite <- inject_Z_mult. now rewrite <- Zle_Qle.
  - apply Qle_shift_div_r; [exact Hc|]. rewrite <- inject_Z_mult. now rewrite <- Zle_Qle.
Qed.

(** The first row of ORDER BY key DESC is a row of greatest key. *)
Lemma first_row_is_max {A : Type} (key : A -> Z) (l : list A) :
  match limit 1 0 (order_by_desc Z.ltb key l) with
  | [] => l = []
  | p :: _ => In p l /\ forall q, In q l -> key q <= key p
  end.
Proof.
  unfold limit. simpl skipn.
  pose proof (order_by_desc_in Z.ltb key l) as Hin.
  pose proof (order_by_Z_sorted key l) as Hs.
  destruct (order_by_desc Z.ltb key l) as [|p rest]; simpl.
  - destruct l as [|x l]; [reflexivity|]. destruct (proj2 (Hin x) (or_introl eq_refl)).
  - split; [apply Hin; now left|]. intros q Hq. apply Hin in Hq.
    destruct Hq as [<-|Hq]; [lia|].
    apply StronglySorted_inv in Hs. destruct Hs as [_ Hall].
    rewrite Forall_forall in Hall. now apply Hall.
Qed.

Lemma filter_nil_iff {A : Type} (f : A -> bool) (l : list A) :
  filter f l = [] <-> forall x, In x l -> f x = false.
Proof.
  induction l as [|x l IH]; simpl; [tauto|].
  destruct (f x) eqn:E.
  - split; [discriminate|]. intro H. rewrite (H x (or_introl eq_refl)) in E. discriminate.
  - rewrite IH. split.
    + intros H y [<-|Hy]; [exact E|now apply H].
    + intros H y Hy. apply H. now right.
Qed.

(** X3. For a selection within the slider domains whose position and club
    contain no quote, the Avg Rating and Avg Age metrics show 0 when no row
    is selected, and otherwise a value within the selected rating range,
    resp. age range. *)
Theorem avg_metrics_within_ranges (f : selection) (db : table) :
  in_slider_domain f ->
  quote_free (selected_position f) = true ->
  quote_free (selected_club f) = true ->
  exists a g,
    avg_val f db = Ok a /\ age_val f db = Ok g /\
    ((forall p, In p db -> selected f p = false) -> a = 0%Q /\ g = 0%Q) /\
    ((exists p, In p db /\ selected f p = true) ->
       (inject_Z (min_rating f) <= a)%Q /\ (a <= inject_Z (max_rating f))%Q /\
       (inject_Z (min_age f) <= g)%Q /\ (g <= inject_Z (max_age f))%Q).
Proof.
  intros Hd Hp Hq. unfold avg_val, age_val, avg_metric.
  rewrite (select_filter_clause f db Hd Hp Hq).
  destruct (filter (selected f) db) as [|r rows] eqn:E.
  - exists 0%Q, 0%Q. split; [reflexivity|]. split; [reflexivity|].
    split; [intros _; split; reflexivity|].
    intros [p [Hin Hs]]. rewrite filter_nil_iff in E. rewrite (E p Hin) in Hs. discriminate.
  - eexists. eexists. split; [reflexivity|]. split; [reflexivity|]. split.
    + intro H. apply filter_nil_iff in H. rewrite H in E. discriminate.
    + intros _.
      assert (Hsel : forall p, In p (r :: rows) -> selected f p = true).
      { intros p Hin. rewrite <- E in Hin. now apply filter_In in Hin. }
      assert (Ho : forall x, In x (map Overall (r :: rows)) ->
                         min_rating f <= x <= max_rating f).
      { intros x Hx. apply in_map_iff in Hx. destruct Hx as [p [<- Hin]].
        apply (selected_in_range f p (Hsel p Hin)). }
      assert (Ha : forall x, In x (map Age (r :: rows)) -> min_age f <= x <= max_age f).
      { intros x Hx. apply in_map_iff in Hx. destruct Hx as [p [<- Hin]].
        apply (selected_in_range f p (Hsel p Hin)). }
      assert (Hne1 : map Overall (r :: rows) <> []) by discriminate.
      assert (Hne2 : map Age (r :: rows) <> []) by discriminate.
      destruct (avg_between _ _ _ Hne1 Ho) as [H1 H2].
      destruct (avg_between _ _ _ Hne2 Ha) as [H3 H4].
      destruct (sql_round_between _ 1 _ _ H1 H2) as [H5 H6].
      destruct (sql_round_between _ 1 _ _ H3 H4) as [H7 H8].
      repeat split; assumption.
Qed.

Lemma avg_metrics_within_ranges_witness :
  exists a g,
    avg_val default_selection squad = Ok a /\ age_val default_selection squad = Ok g /\
    ((forall p, In p squad -> selected default_selection p = false) -> a = 0%Q /\ g = 0%Q) /\
    ((exists p, In p squad /\ selected default_selection p = true) ->
       (inject_Z 60 <= a)%Q /\ (a <= inject_Z 100)%Q /\
       (inject_Z 18 <= g)%Q /\ (g <= inject_Z 35)%Q).
Proof.
  apply (avg_metrics_within_ranges default_selection squad).
  - unfold in_slider_domain. simpl. lia.
  - reflexivity.
  - reflexivity.
Defined.

(** X4. For such a selection the Top Player metric shows "N/A" and 0 when
    no row is selected, and otherwise the name and Overall of a selected
    row whose Overall no selected row exceeds. *)
Theorem top_player_is_best_selected (f : selection) (db : table) :
  in_slider_domain f ->
  quote_free (selected_position f) = true ->
  quote_free (selected_club f) = true ->
  ((forall p, In p db -> selected f p = false) -> top_player f db = Ok ("N/A", 0)) /\
  ((exists p, In p db /\ selected f p = true) ->
     exists p, In p db /\ selected f p = true /\
               top_player f db = Ok (Name p, Overall p) /\
               forall q, In q db -> selected f q = true -> Overall q <= Overall p).
Proof.
  intros Hd Hp Hq. unfold top_player.
  rewrite (select_filter_clause f db Hd Hp Hq).
  pose proof (first_row_is_max Overall (filter (selected f) db)) as H.
  destruct (limit 1 0 (order_by_desc Z.ltb Overall (filter (selected f) db))) as [|p rest].
  - split; [reflexivity|]. intros [p [Hin Hs]].
    rewrite filter_nil_iff in H. rewrite (H p Hin) in Hs. discriminate.
  - destruct H as [Hin Hmax]. apply filter_In in Hin. destruct Hin as [Hin Hs]. split.
    + intro Hnone. rewrite (Hnone p Hin) in Hs. discriminate.
    + intros _. exists p. repeat split; try assumption.
      intros q Hq' Hsq. apply Hmax. apply filter_In. now split.
Qed.

Lemma top_player_is_best_selected_witness :
  ((forall p, In p squad -> selected default_selection p = false) ->
   top_player default_selection squad = Ok ("N/A", 0)) /\
  ((exists p, In p squad /\ selected default_selection p = true) ->
     exists p, In p squad /\ selected default_selection p = true /\
               top_player default_selection squad = Ok (Name p, Overall p) /\
               forall q, In q squad -> selected default_selection q = true ->
                         Overall q <= Overall p).
Proof.
  apply (top_player_is_best_selected default_selection squad).
  - unfold in_slider_domain. simpl. lia.
  - reflexivity.
  - reflexivity.
Defined.

Lemma distinct_of_one (l : list string) (c : string) :
  (forall x, In x l -> x = c) -> (List.length (distinct l) <= 1)%nat.
Proof.
  intro H. destruct l as [|x l]; simpl; [lia|].
  assert (E : filter (fun k' => negb (String.eqb k' x)) (distinct l) = []).
  { apply filter_nil_iff. intros y Hy. apply (proj1 (distinct_in l y)) in Hy.
    rewrite (H y (or_intror Hy)), (H x (or_introl eq_refl)).
    now rewrite String.eqb_refl. }
  rewrite E. simpl. lia.
Qed.

(** X5. With a concrete club selected (quote-free, sliders in their
    domains) the Clubs metric is 0 or 1. *)
Theorem clubs_count_with_club_selected (f : selection) (db : table) :
  in_slider_domain f ->
  quote_free (selected_position f) = true ->
  quote_free (selected_club f) = true ->
  selected_club f <> "All" ->
  exists c, clubs_count f db = Ok c /\ 0 <= c <= 1.
Proof.
  intros Hd Hp Hq Hc. unfold clubs_count.
  rewrite (select_filter_clause f db Hd Hp Hq).
  eexists. split; [reflexivity|]. unfold count, clubs_of.
  assert (H : (List.length
                 (distinct
                    (flat_map (fun p => match Club p with Some c => [c] | None => [] end)
                       (filter (selected f) db))) <= 1)%nat).
  { apply (distinct_of_one _ (selected_club f)). intros x Hx.
    apply in_flat_map in Hx. destruct Hx as [p [Hin Hx]].
    apply filter_In in Hin. destruct Hin as [_ Hs].
    unfold selected in Hs. apply andb_true_iff in Hs. destruct Hs as [_ Hs].
    apply String.eqb_neq in Hc. rewrite Hc in Hs. simpl in Hs.
    destruct (Club p) as [c|]; simpl in *; [|tauto].
    destruct Hx as [<-|[]]. now apply String.eqb_eq in Hs. }
  lia.
Qed.

Lemma clubs_count_with_club_selected_witness :
  exists c, clubs_count (mkSelection "All" "Real Madrid" 60 100 16 45) squad = Ok c /\
            0 <= c <= 1.
Proof.
  apply (clubs_count_with_club_selected (mkSelection "All" "Real Madrid" 60 100 16 45) squad).
  - unfold in_slider_domain. simpl. lia.
  - reflexivity.
  - reflexivity.
  - discriminate.
Defined.

(** ** Quotes in the interpolated text *)

Lemma lex_step_stops_bad (st : Sql.lstate) (c : ascii) (out : list Sql.token) :
  Sql.lex_step st c = (out, None) -> In Sql.TBad out.
Proof.
  unfold Sql.lex_step, Sql.emit_then_start, Sql.start_step.
  destruct st;
    repeat match goal with
           | |- context [if ?b then _ else _] => destruct b
           end;
    intro H; inversion H; subst; simpl; tauto.
Qed.

Lemma lex_step_open_quote (st st' : Sql.lstate) (c : ascii) (out : list Sql.token) :
  Sql.lex_step st c = (out, Some st') ->
  Nat.odd (open_quote st') = Nat.odd (open_quote st + (if Sql.is_quote c then 1 else 0)).
Proof.
  unfold Sql.lex_step, Sql.emit_then_start, Sql.start_step.
  assert (Q : Sql.is_quote c = true ->
              Sql.is_space c = false /\ Sql.is_digit c = false /\
              Sql.is_alpha c = false /\ Ascii.eqb c "=" = false).
  { unfold Sql.is_quote. intro E. apply Ascii.eqb_eq in E. subst c. repeat split. }
  destruct st; destruct (Sql.is_quote c) eqn:E;
    try (destruct (Q eq_refl) as [Q1 [Q2 [Q3 Q4]]]; rewrite ?Q1, ?Q2, ?Q3, ?Q4; simpl);
    repeat match goal with
           | |- context [if ?b then _ else _] => destruct b eqn:?
           end;
    intro H; inversion H; subst; try reflexivity; try discriminate.
Qed.

(** A text whose quotes do not pair up has a token that is not one. *)
Lemma lex_bad_on_odd_quotes (s : string) :
  forall st, Nat.odd (open_quote st + quotes s) = true -> In Sql.TBad (Sql.lex st s).
Proof.
  induction s as [|c s IH]; intros st H.
  - simpl in *. rewrite Nat.add_0_r in H. destruct st; try discriminate. now left.
  - simpl. destruct (Sql.lex_step st c) as [out [st'|]] eqn:E.
    + apply in_or_app. right. apply IH.
      rewrite Nat.odd_add, (lex_step_open_quote _ _ _ _ E).
      simpl in H. rewrite !Nat.odd_add in *.
      destruct (Nat.odd (open_quote st)), (Sql.is_quote c), (Nat.odd (quotes s));
        simpl in *; congruence.
    + now apply (lex_step_stops_bad st c).
Qed.

Lemma parse_atom_keeps_bad (ts rest : list Sql.token) (a : Sql.atom) :
  Sql.parse_atom ts = Some (a, rest) -> In Sql.TBad ts -> In Sql.TBad rest.
Proof.
  unfold Sql.parse_atom.
  destruct ts as [|t1 ts]; [discriminate|]. destruct t1; try discriminate.
  destruct ts as [|t2 ts]; [discriminate|]. destruct t2; try discriminate.
  - destruct ts as [|t3 ts]; [discriminate|]. destruct t3; try discriminate.
    + destruct ts as [|t4 ts]; [discriminate|]. destruct t4; try discriminate.
      destruct ts as [|t5 ts]; [discriminate|]. destruct t5; try discriminate.
      destruct (_ && _)%bool; [|discriminate].
      destruct (Sql.intcol_of w); [|discriminate]. simpl.
      intros H Hin. injection H as _ <-.
      repeat (destruct Hin as [Hin|Hin]; [discriminate|]). exact Hin.
    + destruct (String.eqb w0 "LIKE"); [|discriminate].
      destruct (Sql.textcol_of w); [|discriminate]. simpl.
      intros H Hin. injection H as _ <-.
      repeat (destruct Hin as [Hin|Hin]; [discriminate|]). exact Hin.
  - destruct ts as [|t3 ts]; [discriminate|]. destruct t3; try discriminate.
    destruct (Sql.textcol_of w); [|discriminate]. simpl.
    intros H Hin. injection H as _ <-.
    repeat (destruct Hin as [Hin|Hin]; [discriminate|]). exact Hin.
  - destruct ts as [|t3 ts]; [discriminate|]. destruct t3; try discriminate.
    destruct (Sql.textcol_of w); [|discriminate]. simpl.
    intros H Hin. injection H as _ <-.
    repeat (destruct Hin as [Hin|Hin]; [discriminate|]). exact Hin.
Qed.

Lemma parse_cond_bad (fuel : nat) :
  forall ts, In Sql.TBad ts -> Sql.parse_cond fuel ts = None.
Proof.
  induction fuel as [|fuel IH]; intros ts Hin; simpl; [reflexivity|].
  destruct (Sql.parse_atom ts) as [[a rest]|] eqn:E; [|reflexivity].
  pose proof (parse_atom_keeps_bad ts rest a E Hin) as Hr.
  destruct rest as [|t rest]; [destruct Hr|].
  destruct t; simpl; try reflexivity.
  - destruct Hr as [Hr|Hr]; [discriminate|].
    rewrite (IH rest Hr). now destruct (String.eqb w "AND"), (String.eqb w "OR").
Qed.

(** Text with a token that is not one is no WHERE clause. *)
Lemma parse_where_bad (s : string) :
  In Sql.TBad (Sql.tokens s) -> Sql.parse_where s = None.
Proof.
  unfold Sql.parse_where. intro H.
  destruct (Sql.tokens s) as [|t ts]; [reflexivity|].
  destruct t; simpl; try reflexivity.
  destruct H as [H|H]; [discriminate|].
  rewrite (parse_cond_bad _ ts H). now destruct (String.eqb w "WHERE").
Qed.

Lemma select_where_odd_quotes (s : string) (db : table) :
  Nat.odd (quotes s) = true -> Sql.select_where s db = Raised.
Proof.
  intro H. unfold Sql.select_where. rewrite parse_where_bad; [reflexivity|].
  apply lex_bad_on_odd_quotes. exact H.
Qed.

Lemma quotes_app (a b : string) : quotes (a ++ b) = (quotes a + quotes b)%nat.
Proof.
  induction a as [|c a IH]; simpl; [reflexivity|]. rewrite IH. lia.
Qed.

Lemma quotes_show_int (n : Z) : 0 <= n <= 100 -> quotes (show_int n) = O.
Proof.
  intro H.
  assert (E : exists k, (k <= 100)%nat /\ n = Z.of_nat k).
  { exists (Z.to_nat n). split; lia. }
  destruct E as [k [Hk ->]]. clear H.
  do 101 (destruct k as [|k]; [reflexivity|]).
  exfalso. lia.
Qed.

(** The quotes of the clause are those of the two values, and two more for
    each value that is not "All". *)
Lemma quotes_filter_clause (f : selection) :
  in_slider_domain f ->
  Nat.odd (quotes (filter_clause f))
  = Nat.odd ((if String.eqb (selected_position f) "All" then 0
              else quotes (selected_position f))
             + (if String.eqb (selected_club f) "All" then 0
                else quotes (selected_club f))).
Proof.
  intros [Ha [Hb [Hc Hd]]]. unfold filter_clause.
  destruct (String.eqb (selected_position f) "All");
  destruct (String.eqb (selected_club f) "All"); cbn [negb];
  rewrite !quotes_app, !quotes_show_int by lia; simpl quotes;
  rewrite ?quotes_app; simpl quotes; rewrite ?Nat.odd_add; simpl;
  repeat match goal with
         | |- context [Nat.odd (quotes ?s)] => destruct (Nat.odd (quotes s))
         end; reflexivity.
Qed.

Lemma quotes_all_free (s : string) : String.eqb s "All" = true -> quotes s = O.
Proof. intro H. apply String.eqb_eq in H. now subst s. Qed.

Lemma filter_clause_odd_quotes (f : selection) (suffix : string) (db : table) :
  in_slider_domain f ->
  Nat.odd (quotes (selected_position f) + quotes (selected_club f)) = true ->
  Nat.even (quotes suffix) = true ->
  Sql.select_where (filter_clause f ++ suffix) db = Raised.
Proof.
  intros Hd Hodd Heven. apply select_where_odd_quotes.
  rewrite quotes_app, Nat.odd_add, (quotes_filter_clause f Hd).
  rewrite <- (Nat.negb_even (quotes suffix)), Heven. simpl. rewrite xorb_false_r.
  destruct (String.eqb (selected_position f) "All") eqn:E1;
  destruct (String.eqb (selected_club f) "All") eqn:E2;
  rewrite ?(quotes_all_free _ E1), ?(quotes_all_free _ E2) in Hodd; exact Hodd.
Qed.

(** X6. When the selected position and club are name-like text with an odd
    number of quote characters between them (a club such as O'Higgins with
    the position on "All", say), every query built on [filter_clause]
    raises, whatever the table holds: the five KPI queries, the three
    distributions of the Overview tab, its Top 15 Clubs query and the Top
    50 query. *)
Theorem odd_quotes_break_the_filtered_queries (f : selection) (db : table) :
  in_slider_domain f ->
  name_like (selected_position f) = true ->
  name_like (selected_club f) = true ->
  Nat.odd (quotes (selected_position f) + quotes (selected_club f)) = true ->
  total_count f db = Raised /\ avg_val f db = Raised /\ age_val f db = Raised /\
  top_player f db = Raised /\ clubs_count f db = Raised /\
  rating_dist f db = Raised /\ nations f db = Raised /\ age_dist f db = Raised /\
  top_clubs f db = Raised /\ top_players f db = Raised.
Proof.
  intros Hd _ _ Hodd.
  pose proof (filter_clause_odd_quotes f "" db Hd Hodd eq_refl) as H.
  rewrite string_app_nil_r in H.
  pose proof (filter_clause_odd_quotes f " AND Club != 'Hoffenheim' AND Club != ''" db
                Hd Hodd eq_refl) as H'.
  unfold total_count, avg_val, age_val, avg_metric, top_player, clubs_count, rating_dist,
    nations, age_dist, top_clubs, top_players.
  rewrite H, H'. repeat split.
Qed.

Lemma odd_quotes_break_the_filtered_queries_witness :
  total_count ohiggins_selected ohiggins = Raised /\
  avg_val ohiggins_selected ohiggins = Raised /\
  age_val ohiggins_selected ohiggins = Raised /\
  top_player ohiggins_selected ohiggins = Raised /\
  clubs_count ohiggins_selected ohiggins = Raised /\
  rating_dist ohiggins_selected ohiggins = Raised /\
  nations ohiggins_selected ohiggins = Raised /\
  age_dist ohiggins_selected ohiggins = Raised /\
  top_clubs ohiggins_selected ohiggins = Raised /\
  top_players ohiggins_selected ohiggins = Raised.
Proof.
  apply (odd_quotes_break_the_filtered_queries ohiggins_selected ohiggins).
  - unfold in_slider_domain. simpl. lia.
  - reflexivity.
  - reflexivity.
  - reflexivity.
Defined.

(** X7. A name-like search term with an odd number of quote characters
    (O'Neil, say) makes the search query raise for every field and every
    table. *)
Theorem odd_quotes_break_the_search (t : search_type) (search_term : string) (db : table) :
  name_like search_term = true ->
  Nat.odd (quotes search_term) = true ->
  results t search_term db = Raised.
Proof.
  intros _ Hodd. unfold results.
  rewrite select_where_odd_quotes; [reflexivity|].
  unfold search_where. rewrite !quotes_app.
  replace (quotes (search_column t)) with O by now destruct t.
  simpl. replace (S (quotes search_term + 1)) with (2 + quotes search_term)%nat by lia.
  rewrite Nat.odd_add. now rewrite Hodd.
Qed.

Lemma odd_quotes_break_the_search_witness :
  results ByName "O'Neil" squad = Raised.
Proof.
  apply (odd_quotes_break_the_search ByName "O'Neil" squad); reflexivity.
Defined.

(** ** Overview tab: the distributions *)


Lemma NoDup_filter {A : Type} (f : A -> bool) (l : list A) : NoDup l -> NoDup (filter f l).
Proof.
  induction 1 as [|x l Hx Hl IH]; simpl; [constructor|].
  destruct (f x); [|exact IH]. constructor; [|exact IH].
  intro H. apply filter_In in H. tauto.
Qed.


Lemma distinct_NoDup (l : list string) : NoDup (distinct l).
Proof.
  induction l as [|x l IH]; simpl; constructor.
  - intro H. apply filter_In in H. destruct H as [_ H]. now rewrite String.eqb_refl in H.
  - now apply NoDup_filter.
Qed.

Lemma order_by_asc_perm {A K : Type} (ltb : K -> K -> bool) (key : A -> K) (l : list A) :
  Permutation l (order_by_asc ltb key l).
Proof. apply order_by_desc_perm. Qed.



Lemma sum_app (a b : list Z) : sum (a ++ b) = sum a + sum b.
Proof. induction a as [|x a IH]; simpl; [reflexivity|]. unfold sum in *. simpl. lia. Qed.

Lemma sum_perm (a b : list Z) : Permutation a b -> sum a = sum b.
Proof.
  induction 1; unfold sum in *; simpl; lia.
Qed.






(** ** ORDER BY ... DESC LIMIT n *)

(** The first [n] rows in descending order of an integer column: at most
    [n] rows, in order, the rows left out are dominated, and nothing is
    left out of a list of at most [n] rows. *)
Lemma top_n_facts {A : Type} (key : A -> Z) (n : nat) (l : list A) :
  let shown := limit n 0 (order_by_desc Z.ltb key l) in
  exists outside,
    Permutation (shown ++ outside) l /\
    (List.length shown <= n)%nat /\
    sorted_desc key shown /\
    (forall r o, In r shown -> In o outside -> key o <= key r) /\
    ((List.length l <= n)%nat -> outside = []).
Proof.
  unfold limit. simpl skipn.
  set (s := order_by_desc Z.ltb key l).
  assert (Hs : sorted_desc key s) by apply order_by_Z_sorted.
  assert (Hp : Permutation l s) by apply order_by_desc_perm.
  exists (skipn n s). repeat split.
  - rewrite firstn_skipn. now apply Permutation_sym.
  - apply firstn_le_length.
  - now apply sorted_firstn.
  - intros r o Hr Ho. apply (sorted_firstn_skipn _ n s Hs r o Hr Ho).
  - intro Hl. apply skipn_all2. rewrite <- (Permutation_length Hp). exact Hl.
Qed.

(** ** Top Players tab *)

(** X9. For a selection within the slider domains whose position and club
    contain no quote, the Top 50 table shows selected rows only, at most 50
    of them, in descending order of Overall; every selected row left out
    has an Overall no greater than any row shown, none is left out when at
    most 50 rows are selected, and the first row has the Overall that the
    Top Player metric shows. *)
Theorem top_players_are_the_best_selected (f : selection) (db : table) :
  in_slider_domain f ->
  quote_free (selected_position f) = true ->
  quote_free (selected_club f) = true ->
  exists rows outside,
    top_players f db = Ok rows /\
    Permutation (rows ++ outside) (filter (selected f) db) /\
    (List.length rows <= 50)%nat /\
    sorted_desc Overall rows /\
    (forall r o, In r rows -> In o outside -> Overall o <= Overall r) /\
    ((List.length (filter (selected f) db) <= 50)%nat -> outside = []) /\
    (forall p rest, rows = p :: rest ->
       exists name, top_player f db = Ok (name, Overall p)).
Proof.
  intros Hd Hp Hq. unfold top_players, top_player.
  rewrite (select_filter_clause f db Hd Hp Hq).
  destruct (top_n_facts Overall 50 (filter (selected f) db))
    as [outside [H1 [H2 [H3 [H4 H5]]]]].
  eexists. exists outside. split; [reflexivity|].
  repeat split; try assumption.
  intros p rest E. unfold limit in *. simpl skipn in *.
  destruct (order_by_desc Z.ltb Overall (filter (selected f) db)) as [|p0 l0];
    [discriminate|].
  simpl in E. injection E as <- _. simpl. now exists (Name p0).
Qed.

Lemma top_players_are_the_best_selected_witness :
  exists rows outside,
    top_players default_selection squad = Ok rows /\
    Permutation (rows ++ outside) (filter (selected default_selection) squad) /\
    (List.length rows <= 50)%nat /\
    sorted_desc Overall rows /\
    (forall r o, In r rows -> In o outside -> Overall o <= Overall r) /\
    ((List.length (filter (selected default_selection) squad) <= 50)%nat -> outside = []) /\
    (forall p rest, rows = p :: rest ->
       exists name, top_player default_selection squad = Ok (name, Overall p)).
Proof.
  apply (top_players_are_the_best_selected default_selection squad).
  - unfold in_slider_domain. simpl. lia.
  - reflexivity.
  - reflexivity.
Defined.

(** ** Hidden gems: the twenty with the greatest growth *)

(** X10. The hidden gems frame has at most 20 rows; every player with
    Potential - Overall >= 15 and Age <= 24 that it leaves out has a growth
    no greater than that of any row shown, and when at most 20 players
    qualify all of them are shown. *)
Theorem gems_are_the_top_twenty (db : table) :
  exists outside,
    Permutation (gems db ++ outside) (map gem_of (filter hidden_gem db)) /\
    (List.length (gems db) <= 20)%nat /\
    (forall g o, In g (gems db) -> In o outside -> Growth o <= Growth g) /\
    ((List.length (filter hidden_gem db) <= 20)%nat -> outside = []).
Proof.
  unfold gems.
  destruct (top_n_facts Growth 20 (map gem_of (filter hidden_gem db)))
    as [outside [H1 [H2 [_ [H4 H5]]]]].
  exists outside. repeat split; try assumption.
  intro H. apply H5. now rewrite length_map.
Qed.

(** ** Player search: what is found *)

Lemma found_searched (t : search_type) (search_term : string) (p : player) :
  found t search_term p
  = match searched t p with
    | Some v => Sql.like ("%" ++ search_term ++ "%") v
    | None => false
    end.
Proof. unfold found, Sql.on_text. now destruct t. Qed.

Lemma results_found (t : search_type) (search_term : string) (db : table) :
  quote_free search_term = true ->
  results t search_term db
  = Ok (limit 100 0 (order_by_desc Z.ltb Overall (filter (found t search_term) db))).
Proof. intro H. now rewrite (results_quote_free t search_term db H). Qed.

(** X11. For a term without quote and wildcard the search finds the rows
    whose searched value is not NULL and contains the term, letter case
    apart: it returns the 100 of them with the greatest Overall (every such
    row left out has an Overall no greater than any row returned), and all
    of them when there are at most 100. *)
Theorem search_finds_the_matching_rows (t : search_type) (search_term : string) (db : table) :
  quote_free search_term = true ->
  wildcard_free search_term = true ->
  (forall p, found t search_term p = true <->
             exists v, searched t p = Some v /\
                       contains (fold_case search_term) (fold_case v) = true) /\
  exists rows outside,
    results t search_term db = Ok rows /\
    Permutation (rows ++ outside) (filter (found t search_term) db) /\
    (forall r o, In r rows -> In o outside -> Overall o <= Overall r) /\
    ((List.length (filter (found t search_term) db) <= 100)%nat -> outside = []).
Proof.
  intros Hq Hw. split.
  - intro p. rewrite found_searched. destruct (searched t p) as [v|].
    + rewrite (like_percent_term_percent search_term v Hw). split.
      * intro H. now exists v.
      * intros [v' [E H]]. now injection E as <-.
    + split; [discriminate|intros [v [E _]]; discriminate].
  - rewrite (results_found t search_term db Hq).
    destruct (top_n_facts Overall 100 (filter (found t search_term) db))
      as [outside [H1 [_ [_ [H4 H5]]]]].
    eexists. exists outside. split; [reflexivity|]. repeat split; assumption.
Qed.

Lemma search_finds_the_matching_rows_witness :
  exists rows outside,
    results ByClub "madrid" squad = Ok rows /\
    Permutation (rows ++ outside) (filter (found ByClub "madrid") squad) /\
    (forall r o, In r rows -> In o outside -> Overall o <= Overall r) /\
    ((List.length (filter (found ByClub "madrid") squad) <= 100)%nat -> outside = []).
Proof.
  apply (proj2 (search_finds_the_matching_rows ByClub "madrid" squad eq_refl eq_refl)).
Defined.

Lemma upper_facts (c : ascii) :
  Sql.upper (Sql.upper c) = Sql.upper c /\
  Ascii.eqb (Sql.upper c) "%" = Ascii.eqb c "%" /\
  Ascii.eqb (Sql.upper c) "_" = Ascii.eqb c "_" /\
  Sql.is_quote (Sql.upper c) = Sql.is_quote c.
Proof.
  destruct c as [[] [] [] [] [] [] [] []]; repeat split.
Qed.

(** LIKE does not see the letter case of its pattern. *)
Lemma like_fold_case (pat : string) : forall s, Sql.like (fold_case pat) s = Sql.like pat s.
Proof.
  induction pat as [|c pat IH]; intro s; [reflexivity|].
  destruct (upper_facts c) as [U1 [U2 [U3 _]]].
  cbn [fold_case]. destruct (Ascii.eqb c "%") eqn:E.
  - apply Ascii.eqb_eq in E. subst c. change (Sql.upper "%") with "%"%char.
    induction s as [|d s IHs].
    + rewrite !like_percent. now rewrite IH.
    + rewrite (like_percent (fold_case pat)), (like_percent pat). now rewrite IH, IHs.
  - cbn [Sql.like]. rewrite U2, E, U3, U1. destruct s as [|d s]; [reflexivity|].
    now rewrite IH.
Qed.

Lemma quote_free_fold_case (s : string) : quote_free (fold_case s) = quote_free s.
Proof.
  induction s as [|c s IH]; [reflexivity|]. simpl.
  destruct (upper_facts c) as [_ [_ [_ U4]]]. now rewrite U4, IH.
Qed.

Lemma fold_case_app (a b : string) :
  fold_case (a ++ b) = (fold_case a ++ fold_case b)%string.
Proof. induction a as [|c a IH]; simpl; [reflexivity|now rewrite IH]. Qed.

(** X12. The search ignores the letter case of the term: two quote-free
    terms that differ in the case of ASCII letters only return the same
    rows, for every field and table. *)
Theorem search_ignores_the_case_of_the_term
  (t : search_type) (term term' : string) (db : table) :
  quote_free term = true ->
  fold_case term = fold_case term' ->
  results t term db = results t term' db.
Proof.
  intros Hq E.
  assert (Hq' : quote_free term' = true).
  { rewrite <- quote_free_fold_case, <- E, quote_free_fold_case. exact Hq. }
  rewrite (results_found t term db Hq), (results_found t term' db Hq').
  do 3 f_equal. apply filter_ext. intro p. rewrite !found_searched.
  destruct (searched t p) as [v|]; [|reflexivity].
  rewrite <- (like_fold_case ("%" ++ term ++ "%")), <- (like_fold_case ("%" ++ term' ++ "%")).
  change ("%" ++ term ++ "%")%string with (String "%" (term ++ "%")).
  change ("%" ++ term' ++ "%")%string with (String "%" (term' ++ "%")).
  cbn [fold_case]. now rewrite !fold_case_app, E.
Qed.

Lemma search_ignores_the_case_of_the_term_witness :
  results ByClub "real madrid" squad = results ByClub "REAL Madrid" squad.
Proof.
  apply (search_ignores_the_case_of_the_term ByClub "real madrid" "REAL Madrid" squad);
    reflexivity.
Defined.

(** X13. A quote typed twice is read as one quote of the pattern: for
    quote-free [a] and [b] the term [a''b] finds the rows whose searched
    value matches [%a'b%]. *)
Theorem search_doubled_quote (t : search_type) (a b : string) (db : table) :
  quote_free a = true ->
  quote_free b = true ->
  results t (a ++ "''" ++ b) db
  = Ok (limit 100 0
          (order_by_desc Z.ltb Overall (filter (found t (a ++ "'" ++ b)) db))).
Proof.
  intros Ha Hb. unfold results, Sql.select_where.
  assert (P : Sql.parse_where (search_where t (a ++ "''" ++ b))
              = Some [[Sql.ALike (search_textcol t) ("%" ++ (a ++ "'" ++ b) ++ "%")]]).
  { unfold Sql.parse_where, Sql.tokens, search_where.
    assert (E : forall x,
               Sql.lex Sql.LStart ("WHERE " ++ search_column t ++ " LIKE '%" ++ x)
               = Sql.TWord "WHERE" :: Sql.TWord (fold_case (search_column t))
                   :: Sql.TWord "LIKE" :: Sql.lex (Sql.LStr "%") x).
    { intro x. destruct t; reflexivity. }
    rewrite E.
    replace ((a ++ "''" ++ b) ++ "%'")%string
      with (a ++ String "'" (String "'" ((b ++ "%") ++ String "'" "")))%string
      by (now rewrite !string_app_assoc).
    rewrite (lex_literal a Ha).
    change (Sql.lex (Sql.LStrQ ("%" ++ a)) (String "'" ((b ++ "%") ++ "'")))
      with (Sql.lex (Sql.LStr (Sql.snoc ("%" ++ a) "'")) ((b ++ "%") ++ String "'" "")).
    rewrite lex_literal by (now rewrite quote_free_app, Hb).
    unfold Sql.snoc. rewrite !string_app_assoc.
    destruct t; reflexivity. }
  rewrite P. do 3 f_equal. apply filter_ext. intro p.
  unfold Sql.eval_cond, found. simpl. now rewrite andb_true_r, orb_false_r.
Qed.

Lemma search_doubled_quote_witness :
  results ByClub ("O" ++ "''" ++ "Higgins") ohiggins
  = Ok (limit 100 0
          (order_by_desc Z.ltb Overall
             (filter (found ByClub ("O" ++ "'" ++ "Higgins")) ohiggins))).
Proof. apply (search_doubled_quote ByClub "O" "Higgins" ohiggins); reflexivity. Defined.

(** ** The columns of a club row *)

Lemma fold_max_ge (l : list Z) : forall a, a <= fold_left Z.max l a.
Proof.
  induction l as [|x l IH]; intro a; simpl; [lia|].
  specialize (IH (Z.max a x)). lia.
Qed.

Lemma fold_max_upper (l : list Z) :
  forall a x, In x l -> x <= fold_left Z.max l a.
Proof.
  induction l as [|y l IH]; intros a x Hx; [destruct Hx|]. simpl.
  destruct Hx as [->|Hx]; [|now apply IH].
  pose proof (fold_max_ge l (Z.max a x)). lia.
Qed.

Lemma fold_max_in (l : list Z) :
  forall a, fold_left Z.max l a = a \/ In (fold_left Z.max l a) l.
Proof.
  induction l as [|y l IH]; intro a; simpl; [now left|].
  destruct (IH (Z.max a y)) as [H|H]; [|right; now right].
  rewrite H. destruct (Z.max_spec a y) as [[_ ->]|[_ ->]]; [right; now left|now left].
Qed.

(** MAX over a non-empty group is an element no element exceeds. *)
Lemma maximum_spec (l : list Z) :
  l <> [] -> In (maximum l) l /\ forall x, In x l -> x <= maximum l.
Proof.
  destruct l as [|a l]; [contradiction|]. intros _. unfold maximum. split.
  - destruct (fold_max_in l a) as [->|H]; [now left|now right].
  - intros x [<-|Hx]; [apply fold_max_ge|now apply fold_max_upper].
Qed.

Lemma count_filter_le {A : Type} (f : A -> bool) (l : list A) :
  0 <= count (filter f l) <= count l.
Proof. unfold count. pose proof (filter_length_le f l). lia. Qed.

Lemma list_lower_bound (l : list Z) : exists lo, forall x, In x l -> lo <= x.
Proof.
  induction l as [|a l [lo IH]]; [exists 0; intros x []|].
  exists (Z.min a lo). intros x [<-|Hx]; [lia|]. specialize (IH x Hx). lia.
Qed.

(** X14. In every row of the club talent query the columns agree with each
    other: YoungTalents and WorldClass are between 0 and TotalPlayers;
    BestPlayer is the Overall of a player of the club and no player of the
    club has more; WorldClass is at least 1 exactly when BestPlayer is at
    least 80; and AvgRating is at most BestPlayer. *)
Theorem club_row_columns_agree (db : table) (r : club_row) :
  In r (club_talent_query db) ->
  0 <= YoungTalents r <= TotalPlayers r /\
  0 <= WorldClass r <= TotalPlayers r /\
  (exists p, In p db /\ Club p = Some (ct_Club r) /\ Overall p = BestPlayer r) /\
  (forall p, In p db -> Club p = Some (ct_Club r) -> Overall p <= BestPlayer r) /\
  (1 <= WorldClass r <-> 80 <= BestPlayer r) /\
  (AvgRating r <= inject_Z (BestPlayer r))%Q.
Proof.
  intro H. unfold club_talent_query in H. apply limit_in, order_by_desc_in in H.
  unfold qualifying_clubs in H. apply filter_In in H. destruct H as [H H15].
  apply in_map_iff in H. destruct H as [g [<- Hg]].
  apply group_of_club_filter in Hg; [|apply talent_where_club_only].
  destruct Hg as [Hs [p0 [Hp0 [_ Hc0]]]].
  destruct g as [c rows]. simpl in *. subst rows.
  set (rows := filter (club_is c) db) in *.
  assert (Hne : map Overall rows <> []).
  { assert (Hin : In p0 rows) by (apply filter_In; split; [exact Hp0|now apply club_is_true]).
    destruct rows; [destruct Hin|discriminate]. }
  destruct (maximum_spec (map Overall rows) Hne) as [Hmax Hle].
  assert (Hrow : forall p, In p rows <-> In p db /\ Club p = Some c).
  { intro p. unfold rows. rewrite filter_In, club_is_true. tauto. }
  split; [apply count_filter_le|]. split; [apply count_filter_le|].
  split; [|split; [|split]].
  - apply in_map_iff in Hmax. destruct Hmax as [p [E Hp]]. exists p.
    apply Hrow in Hp. tauto.
  - intros p Hp Hc. apply Hle. apply in_map. apply Hrow. tauto.
  - split.
    + intro H1. unfold count in H1.
      destruct (filter (fun p => 80 <=? Overall p) rows) as [|p l] eqn:E;
        [simpl in H1; lia|].
      assert (Hp : In p (filter (fun p => 80 <=? Overall p) rows)) by (rewrite E; now left).
      apply filter_In in Hp. destruct Hp as [Hp H80]. apply Z.leb_le in H80.
      specialize (Hle (Overall p) (in_map Overall rows p Hp)). lia.
    + intro H80. apply in_map_iff in Hmax. destruct Hmax as [p [E Hp]].
      assert (Hf : In p (filter (fun p => 80 <=? Overall p) rows)).
      { apply filter_In. split; [exact Hp|]. apply Z.leb_le. lia. }
      unfold count. destruct (filter (fun p => 80 <=? Overall p) rows);
        [destruct Hf|simpl; lia].
  - destruct (list_lower_bound (map Overall rows)) as [lo Hlo].
    destruct (avg_between (map Overall rows) lo (maximum (map Overall rows)) Hne)
      as [_ Havg].
    { intros x Hx. split; [now apply Hlo|now apply Hle]. }
    apply (sql_round_between _ 2 (Qfloor (avg (map Overall rows))) _
             (Qfloor_le _) Havg).
Qed.

Lemma club_row_columns_agree_witness :
  let r := club_row_of ("Ajax", ajax) in
  0 <= YoungTalents r <= TotalPlayers r /\
  0 <= WorldClass r <= TotalPlayers r /\
  (exists p, In p ajax /\ Club p = Some (ct_Club r) /\ Overall p = BestPlayer r) /\
  (forall p, In p ajax -> Club p = Some (ct_Club r) -> Overall p <= BestPlayer r) /\
  (1 <= WorldClass r <-> 80 <= BestPlayer r) /\
  (AvgRating r <= inject_Z (BestPlayer r))%Q.
Proof.
  apply (club_row_columns_agree ajax (club_row_of ("Ajax", ajax))).
  vm_compute. left. reflexivity.
Defined.

(** ** GROUP BY on filtered rows *)

Lemma filter_filter_and {A : Type} (f g : A -> bool) (l : list A) :
  filter f (filter g l) = filter (fun x => g x && f x)%bool l.
Proof.
  induction l as [|x l IH]; simpl; [reflexivity|].
  destruct (g x); simpl; [destruct (f x); now rewrite IH|exact IH].
Qed.

(** A group of the filtered rows: the kept rows of its club, of which there
    is one at least. *)
Lemma club_group (keep : player -> bool) (db : table) (g : string * list player) :
  In g (group_by_club (filter keep db)) ->
  snd g = filter (fun p => keep p && club_is (fst g) p)%bool db /\
  exists p, In p db /\ keep p = true /\ Club p = Some (fst g).
Proof.
  intro H. apply group_by_club_in in H. destruct H as [Hs [p [Hp Hc]]].
  apply filter_In in Hp. split; [|exists p; tauto].
  rewrite Hs. apply filter_filter_and.
Qed.

Lemma group_by_club_names (rows : list player) :
  map fst (group_by_club rows) = clubs_of rows.
Proof. unfold group_by_club. rewrite map_map. simpl. apply map_id. Qed.

Lemma NoDup_map_filter {A B : Type} (key : A -> B) (f : A -> bool) (l : list A) :
  NoDup (map key l) -> NoDup (map key (filter f l)).
Proof.
  induction l as [|x l IH]; simpl; [constructor|]. intro H. inversion H as [|? ? Hx Hl]; subst.
  destruct (f x); [|now apply IH]. simpl. constructor; [|now apply IH].
  intro Hin. apply Hx. apply in_map_iff in Hin. destruct Hin as [y [E Hy]].
  apply filter_In in Hy. rewrite <- E. apply in_map. tauto.
Qed.

Lemma NoDup_firstn {A : Type} (n : nat) (l : list A) : NoDup l -> NoDup (firstn n l).
Proof.
  revert l. induction n as [|n IH]; intros l H; simpl; [constructor|].
  destruct H as [|x l Hx Hl]; constructor; [|now apply IH].
  intro Hin. apply Hx. rewrite <- (firstn_skipn n l). apply in_or_app. now left.
Qed.

(** Filtering, ordering and cutting keep the names of the groups distinct. *)
Lemma NoDup_top {A K : Type} (name : A -> string) (ltb : K -> K -> bool) (key : A -> K)
  (f : A -> bool) (n : nat) (l : list A) :
  NoDup (map name l) ->
  NoDup (map name (limit n 0 (order_by_desc ltb key (filter f l)))).
Proof.
  intro H. unfold limit. simpl skipn. rewrite <- firstn_map. apply NoDup_firstn.
  eapply Permutation_NoDup.
  - apply Permutation_map, order_by_desc_perm.
  - now apply NoDup_map_filter.
Qed.

Lemma filter_true {A : Type} (l : list A) : filter (fun _ => true) l = l.
Proof. induction l as [|x l IH]; simpl; [reflexivity|now rewrite IH]. Qed.

Lemma club_ne_of_name (c d : string) (p : player) :
  Club p = Some c -> club_ne d p = negb (String.eqb c d).
Proof. unfold club_ne. now intros ->. Qed.

Lemma club_ne_true_name (c d : string) (p : player) :
  Club p = Some c -> club_ne d p = true -> c <> d.
Proof.
  intros Hc H. rewrite (club_ne_of_name c d p Hc) in H.
  apply negb_true_iff, String.eqb_neq in H. exact H.
Qed.

(** ** Youth academies *)

(** X15. The youth academies frame has at most 15 rows, one per club, in
    descending order of AvgPotential.  Every row is a club with a non-empty
    name whose YoungPlayers is the number of its players aged 23 or less,
    at least 5, and whose BestPotential no such player exceeds. *)
Theorem youth_clubs_rows (db : table) :
  (List.length (youth_clubs db) <= 15)%nat /\
  sorted_descQ y_AvgPotential (youth_clubs db) /\
  NoDup (map y_Club (youth_clubs db)) /\
  forall r, In r (youth_clubs db) ->
    y_Club r <> "" /\
    YoungPlayers r = count (filter (fun p => (Age p <=? 23) && club_is (y_Club r) p)%bool db) /\
    5 <= YoungPlayers r /\
    (forall p, In p db -> Age p <= 23 -> Club p = Some (y_Club r) ->
               Potential p <= BestPotential r).
Proof.
  unfold youth_clubs. split; [apply limit_length|].
  split; [apply limit_sorted, order_by_Q_sorted|]. split.
  - apply NoDup_top. rewrite map_map. simpl.
    change (map (fun x => fst x)) with (map (@fst string (list player))).
    rewrite group_by_club_names. apply distinct_NoDup.
  - intros r Hr. apply limit_in, order_by_desc_in, filter_In in Hr.
    destruct Hr as [Hr H5]. apply Z.leb_le in H5.
    apply in_map_iff in Hr. destruct Hr as [[c rows] [<- Hg]].
    apply club_group in Hg. simpl in Hg. destruct Hg as [Hs [p0 [Hp0 [Hk Hc]]]].
    apply andb_true_iff in Hk. destruct Hk as [Hk Hh].
    apply andb_true_iff in Hk. destruct Hk as [_ He].
    pose proof (club_ne_true_name c "" p0 Hc He) as Nempty.
    pose proof (club_ne_true_name c "Hoffenheim" p0 Hc Hh) as Nhoff.
    assert (E : rows = filter (fun p => (Age p <=? 23) && club_is c p)%bool db).
    { rewrite Hs. apply filter_ext. intro p.
      destruct (club_is c p) eqn:Ec; [|now rewrite !andb_false_r].
      apply club_is_true in Ec.
      rewrite (club_ne_of_name c "" p Ec), (club_ne_of_name c "Hoffenheim" p Ec).
      apply String.eqb_neq in Nempty, Nhoff. rewrite Nempty, Nhoff. simpl.
      now rewrite !andb_true_r. }
    simpl in *. repeat split.
    + exact Nempty.
    + now rewrite E.
    + exact H5.
    + intros p Hp Ha Hcp.
      assert (Hin : In p rows).
      { rewrite E. apply filter_In. split; [exact Hp|].
        apply andb_true_iff. split; [now apply Z.leb_le|now apply club_is_true]. }
      assert (Hne : map Potential rows <> []) by (destruct rows; [destruct Hin|discriminate]).
      apply (proj2 (maximum_spec _ Hne)). now apply in_map.
Qed.

(** ** Overview tab: the two bar charts *)

Lemma count_positive {A : Type} (l : list A) (x : A) : In x l -> 1 <= count l.
Proof. unfold count. destruct l; [intros []|simpl; lia]. Qed.

(** X16. For a selection within the slider domains whose position and club
    contain no quote, the Top 15 Clubs chart has at most 15 bars, one per
    club, in descending order of count; every bar is a club with a
    non-empty name, and its count is the number of selected rows of that
    club, at least 1. *)
Theorem top_clubs_rows (f : selection) (db : table) :
  in_slider_domain f ->
  quote_free (selected_position f) = true ->
  quote_free (selected_club f) = true ->
  exists rows,
    top_clubs f db = Ok rows /\
    (List.length rows <= 15)%nat /\
    sorted_desc cc_count rows /\
    NoDup (map cc_Club rows) /\
    forall r, In r rows ->
      cc_Club r <> "" /\
      cc_count r = count (filter (fun p => selected f p && club_is (cc_Club r) p)%bool db) /\
      1 <= cc_count r.
Proof.
  intros Hd Hp Hq. rewrite (top_clubs_quote_free f db Hd Hp Hq).
  eexists. split; [reflexivity|]. split; [apply limit_length|].
  split; [apply limit_sorted, order_by_Z_sorted|]. split.
  - set (keep := fun p => (selected f p && club_ne "Hoffenheim" p && club_ne "" p)%bool).
    pose proof (NoDup_top cc_Club Z.ltb cc_count (fun _ => true) 15
                  (map club_count_of (group_by_club (filter keep db)))) as H.
    rewrite filter_true in H. apply H. rewrite map_map. simpl.
    change (map (fun x => fst x)) with (map (@fst string (list player))).
    rewrite group_by_club_names. apply distinct_NoDup.
  - intros r Hr. apply limit_in, order_by_desc_in in Hr.
    apply in_map_iff in Hr. destruct Hr as [[c rows] [<- Hg]].
    apply club_group in Hg. simpl in Hg. destruct Hg as [Hs [p0 [Hp0 [Hk Hc]]]].
    apply andb_true_iff in Hk. destruct Hk as [Hk He].
    apply andb_true_iff in Hk. destruct Hk as [Hsel Hh].
    pose proof (club_ne_true_name c "" p0 Hc He) as Nempty.
    pose proof (club_ne_true_name c "Hoffenheim" p0 Hc Hh) as Nhoff.
    assert (E : rows = filter (fun p => selected f p && club_is c p)%bool db).
    { rewrite Hs. apply filter_ext. intro p.
      destruct (club_is c p) eqn:Ec; [|now rewrite !andb_false_r].
      apply club_is_true in Ec.
      rewrite (club_ne_of_name c "" p Ec), (club_ne_of_name c "Hoffenheim" p Ec).
      apply String.eqb_neq in Nempty, Nhoff. rewrite Nempty, Nhoff. simpl.
      now rewrite !andb_true_r. }
    unfold club_count_of. simpl. split; [exact Nempty|]. split; [now rewrite E|].
    apply (count_positive rows p0). rewrite E. apply filter_In. split; [exact Hp0|].
    apply andb_true_iff. split; [exact Hsel|now apply club_is_true].
Qed.

Lemma top_clubs_rows_witness :
  exists rows,
    top_clubs default_selection squad = Ok rows /\
    (List.length rows <= 15)%nat /\
    sorted_desc cc_count rows /\
    NoDup (map cc_Club rows) /\
    forall r, In r rows ->
      cc_Club r <> "" /\
      cc_count r
      = count (filter (fun p => selected default_selection p && club_is (cc_Club r) p)%bool
                 squad) /\
      1 <= cc_count r.
Proof.
  apply (top_clubs_rows default_selection squad).
  - unfold in_slider_domain. simpl. lia.
  - reflexivity.
  - reflexivity.
Defined.

(** X17. For such a selection the Top 15 Nationalities chart has at most 15
    bars, one per nationality, in descending order of count, and the count
    of a bar is the number of selected rows of that nationality, at least
    1. *)
Theorem nations_rows (f : selection) (db : table) :
  in_slider_domain f ->
  quote_free (selected_position f) = true ->
  quote_free (selected_club f) = true ->
  exists rows,
    nations f db = Ok rows /\
    (List.length rows <= 15)%nat /\
    sorted_desc nc_count rows /\
    NoDup (map nc_Nationality rows) /\
    forall r, In r rows ->
      nc_count r
      = count (filter (fun p => selected f p && String.eqb (Nationality p) (nc_Nationality r))%bool
                 db) /\
      1 <= nc_count r.
Proof.
  intros Hd Hp Hq. unfold nations. rewrite (select_filter_clause f db Hd Hp Hq).
  set (rows := filter (selected f) db).
  eexists. split; [reflexivity|]. split; [apply limit_length|].
  split; [apply limit_sorted, order_by_Z_sorted|]. split.
  - pose proof (NoDup_top nc_Nationality Z.ltb nc_count (fun _ => true) 15
                  (map (nation_count_of rows) (distinct (map Nationality rows)))) as H.
    rewrite filter_true in H. apply H. rewrite map_map. simpl. rewrite map_id.
    apply distinct_NoDup.
  - intros r Hr. apply limit_in, order_by_desc_in in Hr.
    apply in_map_iff in Hr. destruct Hr as [n [<- Hn]].
    apply distinct_in, in_map_iff in Hn. destruct Hn as [p0 [E Hp0]].
    unfold nation_count_of. simpl. split.
    + unfold rows. now rewrite filter_filter_and.
    + apply (count_positive _ p0). apply filter_In. split; [exact Hp0|].
      rewrite E. apply String.eqb_refl.
Qed.

Lemma nations_rows_witness :
  exists rows,
    nations default_selection squad = Ok rows /\
    (List.length rows <= 15)%nat /\
    sorted_desc nc_count rows /\
    NoDup (map nc_Nationality rows) /\
    forall r, In r rows ->
      nc_count r
      = count (filter (fun p => selected default_selection p
                                && String.eqb (Nationality p) (nc_Nationality r))%bool
                 squad) /\
      1 <= nc_count r.
Proof.
  apply (nations_rows default_selection squad).
  - unfold in_slider_domain. simpl. lia.
  - reflexivity.
  - reflexivity.
Defined.

(** ** Sidebar: the options of the select boxes *)

Lemma string_compare_same (a b : string) : String_as_OT.compare a b = String.compare a b.
Proof.
  revert b. induction a as [|c a IH]; intros [|d b]; reflexivity.
Qed.

Lemma string_leb_trans (a b c : string) :
  String.leb a b = true -> String.leb b c = true -> String.leb a c = true.
Proof.
  unfold String.leb. intros H1 H2.
  destruct (String.compare a b) eqn:E1; [|clear H1|discriminate].
  - apply String.compare_eq_iff in E1. now subst b.
  - destruct (String.compare b c) eqn:E2; [|clear H2|discriminate].
    + apply String.compare_eq_iff in E2. subst c. now rewrite E1.
    + rewrite <- string_compare_same in E1, E2.
      assert (E3 : String_as_OT.lt a c).
      { eapply (@StrictOrder_Transitive _ _ String_as_OT.lt_strorder); eassumption. }
      unfold String_as_OT.lt in E3. rewrite string_compare_same in E3. now rewrite E3.
Qed.

Lemma order_by_name_sorted (l : list string) :
  sorted_names (order_by_asc String.ltb (fun s => s) l).
Proof.
  apply (order_by_desc_sorted (fun a b => String.ltb b a)
           (fun a b => String.leb b a = true) (fun s => s)).
  - intros a b c H1 H2. now apply (string_leb_trans c b a).
  - intros a b. unfold String.ltb, String.leb. now destruct (String.compare b a).
  - intros a b. unfold String.ltb, String.leb. rewrite (String.compare_antisym a b).
    now destruct (String.compare b a).
Qed.

Lemma order_by_name_in (l : list string) (x : string) :
  In x (order_by_asc String.ltb (fun s => s) l) <-> In x l.
Proof. apply order_by_desc_in. Qed.

Lemma order_by_name_NoDup (l : list string) :
  NoDup l -> NoDup (order_by_asc String.ltb (fun s => s) l).
Proof. intro H. eapply Permutation_NoDup; [apply order_by_asc_perm|exact H]. Qed.

(** X18. The position select box offers "All" and every non-empty Position
    of the table, and nothing else; after "All" each position comes once,
    in ascending order of name. *)
Theorem position_options_are_the_positions (db : table) :
  (forall s, In s (position_options db) <->
             s = "All" \/ (s <> "" /\ exists p, In p db /\ Position p = s)) /\
  NoDup (positions_df db) /\
  sorted_names (positions_df db).
Proof.
  unfold position_options, positions_df. split; [|split].
  - intro s. cbn [In]. rewrite order_by_name_in, distinct_in, filter_In, in_map_iff.
    rewrite negb_true_iff, String.eqb_neq. split.
    + intros [E|[[p [E Hp]] N]]; [now left|right]. split; [exact N|now exists p].
    + intros [E|[N [p [Hp E]]]]; [now left|right]. split; [now exists p|exact N].
  - apply order_by_name_NoDup, distinct_NoDup.
  - apply order_by_name_sorted.
Qed.

(** X19. The club select box offers "All" and then at most 50 clubs: the
    first 50, in ascending order of name, of the non-empty clubs of the
    table (NULL apart), each once.  A club of the table that is not offered
    comes after every offered club in that order, and when the table has
    at most 50 clubs all of them are offered. *)
Theorem club_options_are_the_first_fifty (db : table) :
  (forall c, In c (clubs_df db) <-> c <> "" /\ exists p, In p db /\ Club p = Some c) /\
  NoDup (clubs_df db) /\
  sorted_names (clubs_df db) /\
  (List.length (club_options db) <= 51)%nat /\
  (forall c, In c (club_options db) -> c = "All" \/ In c (clubs_df db)) /\
  (forall c o, In c (club_options db) -> c <> "All" ->
               In o (clubs_df db) -> ~ In o (club_options db) ->
               String.leb c o = true) /\
  ((List.length (clubs_df db) <= 50)%nat ->
   forall c, In c (clubs_df db) -> In c (club_options db)).
Proof.
  assert (Hsorted : sorted_names (clubs_df db)) by apply order_by_name_sorted.
  split; [|split; [|split; [exact Hsorted|split; [|split; [|split]]]]].
  - intro c. unfold clubs_df. rewrite order_by_name_in, clubs_of_in. split.
    + intros [p [Hp Hc]]. apply filter_In in Hp. destruct Hp as [Hp Hne]. split.
      * apply (club_ne_true_name c "" p Hc Hne).
      * now exists p.
    + intros [N [p [Hp Hc]]]. exists p. split; [|exact Hc].
      apply filter_In. split; [exact Hp|].
      rewrite (club_ne_of_name c "" p Hc). now apply negb_true_iff, String.eqb_neq.
  - apply order_by_name_NoDup. unfold clubs_of. apply distinct_NoDup.
  - unfold club_options. cbn [List.length].
    pose proof (firstn_le_length 50 (clubs_df db)). lia.
  - unfold club_options. intros c [<-|H]; [now left|right].
    rewrite <- (firstn_skipn 50 (clubs_df db)). apply in_or_app. now left.
  - unfold club_options. intros c o [E|Hc] Nall Ho Hno; [congruence|].
    assert (Hs : In o (skipn 50 (clubs_df db))).
    { rewrite <- (firstn_skipn 50 (clubs_df db)) in Ho. apply in_app_or in Ho.
      destruct Ho as [Ho|Ho]; [|exact Ho]. exfalso. apply Hno. now right. }
    apply (sorted_firstn_skipn _ 50 (clubs_df db) Hsorted c o Hc Hs).
  - intros Hl c Hc. unfold club_options. right. now rewrite firstn_all2.
Qed.

(** ** Best XI: the team *)

Lemma slot_facts (ps : list string) (k : nat) (db : table) :
  (List.length (slot ps k db) <= 1)%nat /\
  forall r, In r (slot ps k db) ->
            exists p, In p db /\ position_in ps p = true /\ r = xi_of p.
Proof.
  unfold slot. split.
  - rewrite length_map. apply limit_length.
  - intros r Hr. apply in_map_iff in Hr. destruct Hr as [p [<- Hp]].
    apply limit_in, candidates_in in Hp. exists p. tauto.
Qed.

Lemma all_players_in (db : table) (r : xi_row) :
  In r (all_players db) -> exists p, In p db /\ r = xi_of p.
Proof.
  unfold all_players, gk, lb, cb1, cb2, rb, cm1, cm2, cm3, lw, striker, rw.
  rewrite !in_app_iff. intro H.
  repeat (destruct H as [H|H];
          [apply slot_facts in H; destruct H as [p [Hp [_ E]]]; now exists p|]).
  apply slot_facts in H. destruct H as [p [Hp [_ E]]]. now exists p.
Qed.

(** X20. The team of the Best XI tab has at most 11 rows, each a row of the
    table; the Clubs Represented figure is at most the number of rows; the
    team averages are 0 for an empty team, and otherwise the Team Average
    Rating lies between any two bounds that hold the Overall of every
    player of the table. *)
Theorem best_xi_team (db : table) :
  (List.length (all_players db) <= 11)%nat /\
  (forall r, In r (all_players db) -> exists p, In p db /\ r = xi_of p) /\
  0 <= unique_clubs db <= count (all_players db) /\
  (all_players db = [] -> avg_overall db = 0%Q /\ avg_age db = 0%Q /\ unique_clubs db = 0) /\
  (forall lo hi, all_players db <> [] ->
     (forall p, In p db -> lo <= Overall p <= hi) ->
     (inject_Z lo <= avg_overall db)%Q /\ (avg_overall db <= inject_Z hi)%Q).
Proof.
  split; [|split; [apply all_players_in|split; [|split]]].
  - unfold all_players, gk, lb, cb1, cb2, rb, cm1, cm2, cm3, lw, striker, rw.
    rewrite !length_app.
    pose proof (proj1 (slot_facts ["GK"] 0 db)).
    pose proof (proj1 (slot_facts ["LB"; "LWB"] 0 db)).
    pose proof (proj1 (slot_facts ["CB"] 0 db)).
    pose proof (proj1 (slot_facts ["CB"] 1 db)).
    pose proof (proj1 (slot_facts ["RB"; "RWB"] 0 db)).
    pose proof (proj1 (slot_facts ["CM"; "CDM"] 0 db)).
    pose proof (proj1 (slot_facts ["CM"; "CAM"] 0 db)).
    pose proof (proj1 (slot_facts ["CM"; "CDM"; "CAM"] 1 db)).
    pose proof (proj1 (slot_facts ["LW"; "LM"] 0 db)).
    pose proof (proj1 (slot_facts ["ST"; "CF"] 0 db)).
    pose proof (proj1 (slot_facts ["RW"; "RM"] 0 db)).
    lia.
  - unfold unique_clubs, count.
    set (cs := flat_map (fun r => match xi_Club r with Some c => [c] | None => [] end)
                 (all_players db)).
    pose proof (distinct_length cs) as H1.
    assert (H2 : (List.length cs <= List.length (all_players db))%nat).
    { unfold cs. generalize (all_players db). intro l.
      induction l as [|r l IH]; [simpl; lia|].
      cbn [flat_map]. rewrite length_app. destruct (xi_Club r); cbn [List.length]; lia. }
    lia.
  - intro E. unfold avg_overall, avg_age, team_mean, unique_clubs. rewrite E.
    repeat split.
  - intros lo hi Hne Hall. unfold avg_overall, team_mean.
    destruct (all_players db) as [|r l] eqn:E; [contradiction|].
    apply avg_between; [discriminate|].
    intros x Hx. apply in_map_iff in Hx. destruct Hx as [r' [<- Hr]].
    rewrite <- E in Hr. apply all_players_in in Hr. destruct Hr as [p [Hp ->]].
    simpl. now apply Hall.
Qed.

(** A slot without OFFSET shows the player who is strictly the best of its
    positions, when there is one. *)
Lemma slot_of_the_clear_best (ps : list string) (db : table) (p : player) :
  In p db -> position_in ps p = true ->
  (forall q, In q db -> position_in ps q = true -> q = p \/ Overall q < Overall p) ->
  slot ps 0 db = [xi_of p].
Proof.
  intros Hp Hpos Hbest.
  destruct (slot_first ps db) as [[_ Hnone]|[p' [Hp' [Hpos' [E Hmax]]]]].
  - rewrite (Hnone p Hp) in Hpos. discriminate.
  - rewrite E. destruct (Hbest p' Hp' Hpos') as [->|Hlt]; [reflexivity|].
    specialize (Hmax p Hp Hpos). lia.
Qed.

(** X21. The slots are filled independently, so one player can fill two:
    when a player at CM is strictly the best of all players at CM, CDM or
    CAM, the first two midfield slots both show that player. *)
Theorem best_cm_fills_two_slots (db : table) (p : player) :
  In p db ->
  Position p = "CM" ->
  (forall q, In q db -> position_in ["CM"; "CDM"; "CAM"] q = true ->
             q = p \/ Overall q < Overall p) ->
  cm1 db = [xi_of p] /\ cm2 db = [xi_of p].
Proof.
  intros Hp Hcm Hbest. unfold cm1, cm2.
  assert (Hsub : forall ps q, (forall s, In s ps -> In s ["CM"; "CDM"; "CAM"]) ->
                              position_in ps q = true ->
                              position_in ["CM"; "CDM"; "CAM"] q = true).
  { intros ps q Hs H. unfold position_in in *. apply existsb_exists in H.
    destruct H as [s [Hin E]]. apply existsb_exists. exists s. split; [now apply Hs|exact E]. }
  split; apply slot_of_the_clear_best; try exact Hp;
    try (unfold position_in; simpl; rewrite Hcm; reflexivity).
  - intros q Hq Hpos. apply Hbest; [exact Hq|]. apply (Hsub ["CM"; "CDM"] q); [|exact Hpos].
    simpl. intuition.
  - intros q Hq Hpos. apply Hbest; [exact Hq|]. apply (Hsub ["CM"; "CAM"] q); [|exact Hpos].
    simpl. intuition.
Qed.

Lemma best_cm_fills_two_slots_witness :
  cm1 squad = [xi_of (mkPlayer 4 "L. Modric" 32 "Croatia" 91 91 (Some "Real Madrid") "CM")] /\
  cm2 squad = [xi_of (mkPlayer 4 "L. Modric" 32 "Croatia" 91 91 (Some "Real Madrid") "CM")].
Proof.
  apply (best_cm_fills_two_slots squad
           (mkPlayer 4 "L. Modric" 32 "Croatia" 91 91 (Some "Real Madrid") "CM")).
  - right; right; right; now left.
  - reflexivity.
  - intros q Hq Hpos. simpl in Hq.
    repeat (destruct Hq as [<-|Hq]; [try discriminate Hpos; (now left) || (right; simpl; lia)|]).
    destruct Hq.
Defined.

(** ** The page: uncaught exceptions and error boxes *)

Section PageRuns.
Import Page.








(** A run raises exactly when one of its blocks was run and raised. *)
Lemma run_raises (db : store) (search_term : string) (bs : list block) :
  fst (run db search_term bs) = Raised <->
  exists b it, In (b, it) (snd (run db search_term bs)) /\
               fst (run_block db search_term b) = Raised.
Proof.
  induction bs as [|b0 bs IH]; simpl.
  - split; [discriminate|intros [b [it [[] _]]]].
  - unfold within. destruct (run_block db search_term b0) as [[u|] log0] eqn:E; simpl.
    + destruct (run db search_term bs) as [r log']. simpl in *. rewrite IH. split.
      * intros [b [it [Hin Hr]]]. exists b, it. split; [|exact Hr].
        apply in_or_app. now right.
      * intros [b [it [Hin Hr]]]. exists b, it. split; [|exact Hr].
        apply in_app_or in Hin. destruct Hin as [Hin|Hin]; [|exact Hin].
        apply in_map_iff in Hin. destruct Hin as [x [Ex _]]. injection Ex as <- <-.
        rewrite E in Hr. discriminate.
    + split; [|reflexivity]. intros _.
      destruct (tidy_body db search_term b0) as [_ Hr].
      assert (Hb : fst (body_of db search_term b0) = Raised).
      { rewrite run_block_body in E. destruct (handler_of b0).
        - rewrite try_except_render in E. discriminate.
        - now rewrite E. }
      destruct (proj1 Hr Hb) as [q [_ Hq]].
      assert (Hlog : In (Issued q) log0).
      { rewrite run_block_body in E. destruct (handler_of b0).
        - rewrite try_except_render in E. discriminate.
        - rewrite E in Hq. exact Hq. }
      exists b0, (Issued q). split; [|now rewrite E].
      apply in_map_iff. exists (Issued q). now split.
Qed.

(** A block that left an entry in the log left all its entries there. *)
Lemma run_log_whole_block (db : store) (search_term : string) (bs : list block)
  (b : block) (it it' : item) :
  In (b, it) (snd (run db search_term bs)) ->
  In it' (snd (run_block db search_term b)) ->
  In (b, it') (snd (run db search_term bs)).
Proof.
  induction bs as [|b0 bs IH]; simpl; [tauto|].
  unfold within. destruct (run_block db search_term b0) as [[u|] log0] eqn:E; simpl.
  - destruct (run db search_term bs) as [r log']. simpl in *.
    intros H H'. apply in_or_app. apply in_app_or in H. destruct H as [H|H].
    + left. apply in_map_iff in H. destruct H as [x [Ex _]]. injection Ex as <- _.
      rewrite E in H'. now apply in_map.
    + right. now apply IH.
  - intros H H'. apply in_map_iff in H. destruct H as [x [Ex _]]. injection Ex as <- _.
    rewrite E in H'. now apply in_map.
Qed.

End PageRuns.

(** X22. The script ends with an uncaught exception exactly when a query
    of a block without a try block (sidebar, Overview, Top Players, skill
    analysis, search, position deep dive) was issued and failed. *)
Theorem page_raises_on_unguarded_failure (db : Page.store) (search_term : string) :
  fst (Page.page db search_term) = Raised <->
  exists q, Page.handler_of (Page.block_of q) = None /\ db q = Page.Fails /\
            In (Page.block_of q, Page.Issued q) (snd (Page.page db search_term)).
Proof.
  unfold Page.page. rewrite run_raises. split.
  - intros [b [it [Hin Hr]]].
    assert (Hh : Page.handler_of b = None).
    { destruct (Page.handler_of b) eqn:E; [|reflexivity].
      rewrite block_returns in Hr; [discriminate|left; congruence]. }
    pose proof (run_block_body db search_term b) as Eb. rewrite Hh in Eb.
    destruct (tidy_body db search_term b) as [Hi Hf].
    rewrite Eb in Hr. destruct (proj1 Hf Hr) as [q [Hq Hlog]].
    pose proof (Hi q Hlog) as Hb. exists q. rewrite Hb.
    split; [exact Hh|]. split; [exact Hq|].
    apply (run_log_whole_block db search_term Page.script b it (Page.Issued q) Hin).
    now rewrite Eb.
  - intros [q [Hh [Hq Hin]]]. exists (Page.block_of q), (Page.Issued q).
    split; [exact Hin|].
    destruct (run_log_in _ _ _ _ _ Hin) as [_ Hlog].
    pose proof (run_block_body db search_term (Page.block_of q)) as Eb. rewrite Hh in Eb.
    rewrite Eb in *.
    apply (proj2 (proj2 (tidy_body db search_term (Page.block_of q)))).
    now exists q.
Qed.


(** ** Best XI tab: all or nothing *)

Section BestXIRuns.
Import Page.

Lemma bind_load_raised (db : store) (q : query) (k : bool -> M unit) :
  (forall c, fst (k c) = Raised -> forall e, ~ In (Rendered e) (snd (k c))) ->
  fst (bind (load_data db q) k) = Raised ->
  forall e, ~ In (Rendered e) (snd (bind (load_data db q) k)).
Proof.
  intros Hk. unfold load_data. destruct (db q); simpl.
  - intros _ e [H|[]]. discriminate.
  - specialize (Hk false). destruct (k false) as [r log]. simpl in *.
    intros Hr e [H|H]; [discriminate|now apply (Hk Hr e)].
  - specialize (Hk true). destruct (k true) as [r log]. simpl in *.
    intros Hr e [H|H]; [discriminate|now apply (Hk Hr e)].
Qed.

Lemma bind_load_issued (db : store) (q q' : query) (k : bool -> M unit) :
  q' = q \/ (forall c, fst (k c) = Ok tt -> In (Issued q) (snd (k c))) ->
  fst (bind (load_data db q') k) = Ok tt ->
  In (Issued q) (snd (bind (load_data db q') k)).
Proof.
  intros H. unfold load_data. destruct (db q'); simpl; [discriminate| |].
  - destruct H as [->|H]; [destruct (k false); intros _; now left|].
    specialize (H false). destruct (k false) as [r log]. simpl in *.
    intro Hr. right. now apply H.
  - destruct H as [->|H]; [destruct (k true); intros _; now left|].
    specialize (H true). destruct (k true) as [r log]. simpl in *.
    intro Hr. right. now apply H.
Qed.

Lemma returns_bind (m : M unit) (k : unit -> M unit) :
  fst m = Ok tt -> fst (k tt) = Ok tt -> fst (bind m k) = Ok tt.
Proof.
  destruct m as [[[]|] log]; simpl; [|discriminate].
  intros _ H. destruct (k tt). exact H.
Qed.

Lemma returns_when (c : bool) (e : element) : fst (when c (render e)) = Ok tt.
Proof. now destruct c. Qed.

(** When a Best XI query raises, nothing has been rendered yet. *)
Lemma best_xi_body_raised (db : store) :
  fst (best_xi_body db) = Raised -> forall e, ~ In (Rendered e) (snd (best_xi_body db)).
Proof.
  unfold best_xi_body.
  do 11 (apply bind_load_raised; intro).
  intro H. exfalso.
  rewrite returns_bind in H; [discriminate|apply returns_when|].
  repeat (apply returns_bind; [apply returns_when|]).
  repeat (apply returns_bind; [reflexivity|]). reflexivity.
Qed.

(** When the Best XI statements return, all eleven queries were issued. *)
Lemma best_xi_body_issues_all (db : store) (q : query) :
  block_of q = BestXI ->
  fst (best_xi_body db) = Ok tt -> In (Issued q) (snd (best_xi_body db)).
Proof.
  intro Hb. unfold best_xi_body.
  destruct q; try discriminate Hb;
    repeat (apply bind_load_issued; first [left; reflexivity|right; intro]).
Qed.

End BestXIRuns.

(** X24. The Best XI tab is all or nothing: when one of its eleven queries
    fails, the tab renders the error message of its handler and nothing
    else, no card and no team metric. *)
Theorem best_xi_failure_shows_only_the_error
  (db : Page.store) (search_term : string) (q : Page.query) :
  Page.block_of q = Page.BestXI ->
  db q = Page.Fails ->
  forall e, In (Page.BestXI, Page.Rendered e) (snd (Page.page db search_term)) ->
            e = Page.ErrorBox "Error loading Best XI".
Proof.
  intros Hb Hq e Hin. unfold Page.page in Hin.
  destruct (run_log_in _ _ _ _ _ Hin) as [_ Hlog]. simpl in Hlog.
  unfold Page.best_xi in Hlog. rewrite try_except_render in Hlog. simpl in Hlog.
  assert (Hr : fst (Page.best_xi_body db) = Raised).
  { destruct (fst (Page.best_xi_body db)) as [[]|] eqn:E; [|reflexivity].
    pose proof (best_xi_body_issues_all db q Hb E) as Hi.
    pose proof (tidy_body db search_term Page.BestXI) as [_ Hf]. simpl in Hf.
    rewrite <- E. apply Hf. now exists q. }
  apply in_app_or in Hlog. destruct Hlog as [Hlog|Hlog].
  - destruct (best_xi_body_raised db Hr e Hlog).
  - rewrite Hr in Hlog. destruct Hlog as [E|[]]. now injection E as <-.
Qed.

Lemma best_xi_failure_shows_only_the_error_witness :
  In (Page.BestXI, Page.Rendered (Page.ErrorBox "Error loading Best XI"))
     (snd (Page.page (Page.failing_at Page.QRw all_rows) "")) /\
  forall e,
    In (Page.BestXI, Page.Rendered e)
       (snd (Page.page (Page.failing_at Page.QRw all_rows) "")) ->
    e = Page.ErrorBox "Error loading Best XI".
Proof.
  split; [vm_compute; tauto|].
  apply (best_xi_failure_shows_only_the_error
           (Page.failing_at Page.QRw all_rows) "" Page.QRw); reflexivity.
Defined.

Lemma top_clubs_without_hoffenheim_witness :
  top_clubs default_selection (without_hoffenheim hoffenheim)
  = top_clubs default_selection hoffenheim /\
  exists rows, top_clubs default_selection hoffenheim = Ok rows /\
               forall r, In r rows -> cc_Club r <> "Hoffenheim".
Proof.
  apply (top_clubs_without_hoffenheim default_selection hoffenheim).
  - unfold in_slider_domain. simpl. lia.
  - reflexivity.
  - reflexivity.
Defined.

Lemma page_raises_on_unguarded_failure_witness :
  fst (Page.page (Page.failing_at Page.QNations all_rows) "") = Raised <->
  exists q, Page.handler_of (Page.block_of q) = None /\
            Page.failing_at Page.QNations all_rows q = Page.Fails /\
            In (Page.block_of q, Page.Issued q)
               (snd (Page.page (Page.failing_at Page.QNations all_rows) "")).
Proof. apply (page_raises_on_unguarded_failure (Page.failing_at Page.QNations all_rows) ""). Defined.

